(** * coroutine_example.c: a generator built from a switch and a line marker

    The C file defines a resumable function with four macros
    (COROUTINE_INIT, COROUTINE_BEGIN, COROUTINE_YIELD, COROUTINE_END) and a
    driver [main].  This development embeds the expanded function and the
    driver, and proves the properties the specification states about them.

    Modelling conventions.
    - [int] and [int32_t] values are integers of [Z]; the results of the two
      arithmetic operations of the body ([* 2] and [++]) are reduced to the
      32-bit two's-complement range by [wrap_int32], the convention of
      CompCert's C semantics.  Lemma [calls_counter_range] shows that no
      reduction ever takes place on a run that starts from a fresh state:
      the counter stays between 0 and 10 there.
    - The state is modelled in two views.  For the sequence the generator
      produces, the struct is a record taken by value and the storage the
      [void *data] field points to lives in a memory of int32 cells, a
      finite map from addresses to values: the counter lies apart from the
      struct, as in [main], where [state] and [state_data] are two distinct
      locals.  For what a call may change, and for generators side by side,
      the struct lies in memory itself ([coroutine_example_at]), so that
      [data] may point at a [resume_point] field.  Lemma [place_simulation]
      shows that the two views agree on a struct that lies beside its
      counter.  In both, reading or writing an address that is not
      allocated has no defined result, and the call yields [None].
    - A call that leaves the function through its closing brace, without a
      [return] statement, yields [FellOffEnd]: no value is produced. *)

From Stdlib Require Import ZArith Lia List String Ascii.
From stdpp Require Import base option list gmap pretty.
Import ListNotations.
Local Open Scope Z_scope.

(** ** Machine integers *)

Definition wrap_int32 (z : Z) : Z := (z + 2 ^ 31) mod 2 ^ 32 - 2 ^ 31.

Definition in_int32 (z : Z) : Prop := - 2 ^ 31 <= z < 2 ^ 31.

(** ** Memory of int32 cells *)

Definition load (m : gmap Z Z) (p : Z) : option Z := m !! p.

Definition store (m : gmap Z Z) (p : Z) (v : Z) : option (gmap Z Z) :=
  match m !! p with
  | Some _ => Some (<[p := v]> m)
  | None => None
  end.

(** ** The coroutine state

    [typedef struct CoroutineState { int resume_point; void * data; }]. *)

Record CoroutineState_t : Type := {
  resume_point : Z;
  data : Z
}.

Definition set_resume_point (s : CoroutineState_t) (v : Z) : CoroutineState_t :=
  {| resume_point := v; data := data s |}.

Definition set_data (s : CoroutineState_t) (p : Z) : CoroutineState_t :=
  {| resume_point := resume_point s; data := p |}.

Definition START_OF_SEQUENCE : Z := 0.
Definition END_OF_SEQUENCE : Z := -1.

(** [__LINE__] at the only use of COROUTINE_YIELD, line 107 of the file. *)
Definition YIELD_LINE : Z := 107.

Definition COROUTINE_INIT (s : CoroutineState_t) : CoroutineState_t :=
  set_resume_point s START_OF_SEQUENCE.

Definition COROUTINE_SEQUENCE_COMPLETE (s : CoroutineState_t) : bool :=
  resume_point s =? END_OF_SEQUENCE.

(** ** One call *)

Inductive result : Type :=
  | Returned (v : Z)
  | FellOffEnd.

Section Body.

(** The bound of the [for] loop; the source has the literal 10. *)
Variable bound : Z.

(** [default: (s)->resume_point = END_OF_SEQUENCE; break; }] followed by
    the closing brace of the function. *)
Definition COROUTINE_END (s : CoroutineState_t) (m : gmap Z Z)
  : option (result * CoroutineState_t * gmap Z Z) :=
  Some (FellOffEnd, set_resume_point s END_OF_SEQUENCE, m).

(** The loop condition, and the part of the loop body up to the [return]
    of COROUTINE_YIELD.  When the condition fails, control leaves the
    loop and runs into the [default:] label. *)
Definition loop_test (s : CoroutineState_t) (m : gmap Z Z)
  : option (result * CoroutineState_t * gmap Z Z) :=
  c ← load m (data s);
  if c <? bound then
    let s' := set_resume_point s YIELD_LINE in
    z ← load m (data s');
    Some (Returned (wrap_int32 (z * 2)), s', m)
  else COROUTINE_END s m.

(** [switch ((s)->resume_point)]: [case 0] enters the loop through its
    initializer; [case __LINE__] lands behind the [return], on the
    increment, and goes on to the loop condition; every other value takes
    [default]. *)
Definition coroutine_body (s : CoroutineState_t) (m : gmap Z Z)
  : option (result * CoroutineState_t * gmap Z Z) :=
  if resume_point s =? 0 then
    m1 ← store m (data s) 0;
    loop_test s m1
  else if resume_point s =? YIELD_LINE then
    c ← load m (data s);
    m1 ← store m (data s) (wrap_int32 (c + 1));
    loop_test s m1
  else COROUTINE_END s m.

(** The caller's protocol: call, test COROUTINE_SEQUENCE_COMPLETE on the
    state, and take the returned value only when the test fails.  The
    values taken are collected in order.  [None] stands for a call on
    unallocated storage, or for [fuel] calls without exhaustion. *)
Fixpoint run_to_exhaustion (fuel : nat) (s : CoroutineState_t) (m : gmap Z Z)
  : option (list Z) :=
  match fuel with
  | O => None
  | S fuel' =>
      '(r, s', m') ← coroutine_body s m;
      if COROUTINE_SEQUENCE_COMPLETE s' then Some []
      else
        vs ← run_to_exhaustion fuel' s' m';
        Some (match r with Returned v => v :: vs | FellOffEnd => vs end)
  end.

(** The loop of the body with the suspension taken out, run in one pass:
    [for (counter = 0; counter < bound; counter++) emit (counter * 2)].
    One unit of [fuel] pays for one evaluation of the loop condition. *)
Fixpoint plain_loop_from (fuel : nat) (counter : Z) : option (list Z) :=
  match fuel with
  | O => None
  | S fuel' =>
      if counter <? bound then
        vs ← plain_loop_from fuel' (wrap_int32 (counter + 1));
        Some (wrap_int32 (counter * 2) :: vs)
      else Some []
  end.

Definition plain_loop (fuel : nat) : option (list Z) := plain_loop_from fuel 0.

End Body.

Definition coroutine_example : CoroutineState_t -> gmap Z Z
  -> option (result * CoroutineState_t * gmap Z Z) :=
  coroutine_body 10.

(** What the caller sees of one call: the result and the marker left in
    the state. *)
Definition observation : Type := (result * Z)%type.

(** [n] calls in a row on the same state. *)
Fixpoint calls (n : nat) (s : CoroutineState_t) (m : gmap Z Z)
  : option (list observation * CoroutineState_t * gmap Z Z) :=
  match n with
  | O => Some ([], s, m)
  | S k =>
      '(obs, s1, m1) ← calls k s m;
      '(r, s2, m2) ← coroutine_example s1 m1;
      Some (obs ++ [(r, resume_point s2)], s2, m2)
  end.

(** The [n]-th call (counted from 0): its result and the state it leaves. *)
Definition nth_call (n : nat) (s : CoroutineState_t) (m : gmap Z Z)
  : option (result * CoroutineState_t) :=
  '(_, s1, m1) ← calls n s m;
  '(r, s2, _) ← coroutine_example s1 m1;
  Some (r, s2).

(** The observations of the first [n] calls on a fresh state, [n <= 10]. *)
Definition yields (n : nat) : list observation :=
  map (fun i : nat => (Returned (2 * Z.of_nat i), YIELD_LINE)) (seq 0 n).

(** The observations of [n] calls, without the final state and memory. *)
Definition trace (n : nat) (s : CoroutineState_t) (m : gmap Z Z)
  : option (list observation) :=
  '(obs, _, _) ← calls n s m; Some obs.

(** Storage is attached when the [data] field points to an allocated cell. *)
Definition attached (s : CoroutineState_t) (m : gmap Z Z) : Prop :=
  is_Some (m !! data s).

(** A state and memory are reachable when some number of calls leads to
    them from a state that COROUTINE_INIT has just initialized. *)
Definition reachable (s : CoroutineState_t) (m : gmap Z Z) : Prop :=
  exists (n : nat) (s0 : CoroutineState_t) (m0 : gmap Z Z) (obs : list observation),
    resume_point s0 = START_OF_SEQUENCE /\ calls n s0 m0 = Some (obs, s, m).

(** ** The state machine of the specification *)

Inductive position : Type :=
  | NOT_STARTED
  | SUSPENDED (marker : Z)
  | EXHAUSTED.

Definition position_of (s : CoroutineState_t) : position :=
  if resume_point s =? START_OF_SEQUENCE then NOT_STARTED
  else if resume_point s =? END_OF_SEQUENCE then EXHAUSTED
  else SUSPENDED (resume_point s).

(** The transitions the specification allows for one call of [advance]. *)
Inductive transition : position -> position -> Prop :=
  | start_to_suspended m1 : transition NOT_STARTED (SUSPENDED m1)
  | start_to_exhausted : transition NOT_STARTED EXHAUSTED
  | suspended_to_suspended mi mj : transition (SUSPENDED mi) (SUSPENDED mj)
  | suspended_to_exhausted mi : transition (SUSPENDED mi) EXHAUSTED
  | exhausted_to_exhausted : transition EXHAUSTED EXHAUSTED.

(** ** The driver *)

Definition newline : string := String (ascii_of_nat 10) EmptyString.

(** [printf("Output: %d\n", value)]: the text appended to standard output. *)
Definition printf_Output (value : Z) : string :=
  ("Output: " +:+ pretty value +:+ newline)%string.

(** The value an assignment reads from a call.  After a call that fell off
    the end of the function there is no returned value, and the caller
    reads whatever the return register holds, [indeterminate]. *)
Definition value_read (indeterminate : Z) (r : result) : Z :=
  match r with
  | Returned v => v
  | FellOffEnd => indeterminate
  end.

(** [for (;;) { value = coroutine_example(&state);
               if COROUTINE_SEQUENCE_COMPLETE(&state) { break; }
               printf("Output: %d\n", value); }] *)
Fixpoint main_loop (fuel : nat) (indeterminate : Z) (state : CoroutineState_t)
    (m : gmap Z Z) (stdout : string) : option string :=
  match fuel with
  | O => None
  | S fuel' =>
      '(r, state', m') ← coroutine_example state m;
      let value := value_read indeterminate r in
      if COROUTINE_SEQUENCE_COMPLETE state' then Some stdout
      else main_loop fuel' indeterminate state' m' (stdout +:+ printf_Output value)%string
  end.

(** [main]: [state] is the uninitialized local struct, [state_data] the
    address of the local counter, [m] the rest of the memory.  The result
    is the exit code and the text written to standard output. *)
Definition main (fuel : nat) (indeterminate : Z) (state : CoroutineState_t)
    (state_data : Z) (m : gmap Z Z) : option (Z * string) :=
  let m := <[state_data := 0]> m in
  let state := COROUTINE_INIT state in
  let state := set_data state state_data in
  stdout ← main_loop fuel indeterminate state m EmptyString;
  Some (0, stdout).

(** The text of one [printf] per value, in order. *)
Fixpoint output_lines (values : list Z) : string :=
  match values with
  | [] => EmptyString
  | v :: rest => (printf_Output v +:+ output_lines rest)%string
  end.

(** The values of [d] rounds of the loop body, the counter starting at [c]. *)
Fixpoint doubled_from (c : Z) (d : nat) : list Z :=
  match d with
  | O => []
  | S d' => 2 * c :: doubled_from (c + 1) d'
  end.

(** ** The struct in memory

    For what a call may change, and for generators side by side, the
    struct must be addressable like the counter: [data] may point at a
    [resume_point] field, of the same struct or of another one.  Memory is
    then a finite map from addresses to cells, a cell holding an [int] or a
    pointer.  Addresses count cells: the struct at address [state] has its
    [resume_point] in the cell [state] and its [data] in the cell
    [state + 1].  An [int32_t] access to a cell that holds a pointer, a
    pointer access to a cell that holds an [int], and any access to an
    address that is not allocated have no defined result. *)

Inductive cell : Type :=
  | IntCell (v : Z)
  | PtrCell (p : Z).

Definition resume_point_field (state : Z) : Z := state.
Definition data_field (state : Z) : Z := state + 1.

Definition load_int (m : gmap Z cell) (p : Z) : option Z :=
  match m !! p with
  | Some (IntCell v) => Some v
  | _ => None
  end.

Definition load_ptr (m : gmap Z cell) (p : Z) : option Z :=
  match m !! p with
  | Some (PtrCell q) => Some q
  | _ => None
  end.

Definition store_int (m : gmap Z cell) (p : Z) (v : Z) : option (gmap Z cell) :=
  match m !! p with
  | Some (IntCell _) => Some (<[p := IntCell v]> m)
  | _ => None
  end.

(** The counter behind [state->data], read and written as an [int32_t]. *)
Definition load_counter (m : gmap Z cell) (state : Z) : option Z :=
  d ← load_ptr m (data_field state);
  load_int m d.

Definition store_counter (m : gmap Z cell) (state : Z) (v : Z)
  : option (gmap Z cell) :=
  d ← load_ptr m (data_field state);
  store_int m d v.

Section BodyInMemory.

Variable bound : Z.

(** [default: (s)->resume_point = END_OF_SEQUENCE; break; }] and the
    closing brace of the function. *)
Definition COROUTINE_END_at (state : Z) (m : gmap Z cell)
  : option (result * gmap Z cell) :=
  m1 ← store_int m (resume_point_field state) END_OF_SEQUENCE;
  Some (FellOffEnd, m1).

(** The loop condition and COROUTINE_YIELD up to its [return]: the marker
    is stored first, the returned expression is evaluated after it. *)
Definition loop_test_at (state : Z) (m : gmap Z cell)
  : option (result * gmap Z cell) :=
  c ← load_counter m state;
  if c <? bound then
    m1 ← store_int m (resume_point_field state) YIELD_LINE;
    z ← load_counter m1 state;
    Some (Returned (wrap_int32 (z * 2)), m1)
  else COROUTINE_END_at state m.

(** The function on a pointer to the struct, [CoroutineState_t *state]. *)
Definition coroutine_body_at (state : Z) (m : gmap Z cell)
  : option (result * gmap Z cell) :=
  rp ← load_int m (resume_point_field state);
  if rp =? 0 then
    m1 ← store_counter m state 0;
    loop_test_at state m1
  else if rp =? YIELD_LINE then
    c ← load_counter m state;
    m1 ← store_counter m state (wrap_int32 (c + 1));
    loop_test_at state m1
  else COROUTINE_END_at state m.

End BodyInMemory.

Definition coroutine_example_at : Z -> gmap Z cell -> option (result * gmap Z cell) :=
  coroutine_body_at 10.

(** [n] calls in a row through the same pointer. *)
Fixpoint calls_at (n : nat) (state : Z) (m : gmap Z cell)
  : option (list result * gmap Z cell) :=
  match n with
  | O => Some ([], m)
  | S k =>
      '(rs, m1) ← calls_at k state m;
      '(r, m2) ← coroutine_example_at state m1;
      Some (rs ++ [r], m2)
  end.

(** The cells a call through [state] can read or write: the two fields of
    the struct and the cell its [data] field points to. *)
Definition touches (state : Z) (m : gmap Z cell) (q : Z) : Prop :=
  q = resume_point_field state
  \/ q = data_field state
  \/ m !! data_field state = Some (PtrCell q).

(** Two generators are apart when no cell is touched by both. *)
Definition apart (state1 state2 : Z) (m : gmap Z cell) : Prop :=
  forall q, touches state1 m q -> touches state2 m q -> False.

(** What one call writes: the marker, and before it the counter when the
    call got as far as the loop. *)
Definition write_back (state : Z) (w : option (Z * Z)) (marker : Z)
    (m : gmap Z cell) : gmap Z cell :=
  <[resume_point_field state := IntCell marker]>
    match w with
    | Some (d, v) => <[d := IntCell v]> m
    | None => m
    end.

(** The struct [s] placed at address [state] beside the counters of [m]. *)
Definition place (state : Z) (s : CoroutineState_t) (m : gmap Z Z)
  : gmap Z cell :=
  <[resume_point_field state := IntCell (resume_point s)]>
    (<[data_field state := PtrCell (data s)]> (IntCell <$> m)).

(** ** Sample inputs

    A memory with three allocated cells, and states over it: a fresh one as
    [main] builds it, one suspended in the middle of the sequence, and one
    that is exhausted. *)

Definition sample_memory : gmap Z Z := {[ 4096 := 77; 4100 := -5; 4104 := 3 ]}.

Definition sample_fresh : CoroutineState_t :=
  {| resume_point := START_OF_SEQUENCE; data := 4096 |}.

Definition sample_suspended : CoroutineState_t :=
  {| resume_point := YIELD_LINE; data := 4104 |}.

Definition sample_exhausted : CoroutineState_t :=
  {| resume_point := END_OF_SEQUENCE; data := 4100 |}.

(** A fresh state whose [data] points to no allocated cell. *)
Definition sample_unattached : CoroutineState_t :=
  {| resume_point := START_OF_SEQUENCE; data := 0 |}.

(** A memory with three structs.  The one at 100 is fresh and its [data]
    points at its own [resume_point]; the one at 200 is suspended with its
    counter, holding 3, at 300; the one at 400 is fresh and its [data]
    points at the [resume_point] of the struct at 200. *)
Definition sample_cells : gmap Z cell :=
  {[ 100 := IntCell 0; 101 := PtrCell 100;
     200 := IntCell 107; 201 := PtrCell 300; 300 := IntCell 3;
     400 := IntCell 0; 401 := PtrCell 200;
     500 := IntCell 0; 501 := PtrCell 600; 600 := IntCell 42 ]}.

(** ** Memory facts *)

Lemma mem_lookup_insert (m : gmap Z Z) (p v : Z) : <[p := v]> m !! p = Some v.
Proof. apply lookup_insert_eq. Qed.

Lemma mem_lookup_insert_ne (m : gmap Z Z) (p q v : Z) :
  p <> q -> <[p := v]> m !! q = m !! q.
Proof. apply lookup_insert_ne. Qed.

Lemma mem_insert_insert (m : gmap Z Z) (p v w : Z) :
  <[p := v]> (<[p := w]> m) = <[p := v]> m.
Proof. apply insert_insert_eq. Qed.

(** A cell that has just been written is attached. *)
Ltac attached_by_insert :=
  unfold attached; simpl; rewrite mem_lookup_insert; eauto.

(** ** Basic equations of a call *)

Section BodyFacts.

Variable bound : Z.

Lemma body_first_call s m :
  resume_point s = START_OF_SEQUENCE ->
  is_Some (m !! data s) ->
  coroutine_body bound s m =
    if 0 <? bound
    then Some (Returned 0, set_resume_point s YIELD_LINE, <[data s := 0]> m)
    else Some (FellOffEnd, set_resume_point s END_OF_SEQUENCE, <[data s := 0]> m).
Proof.
  intros Hrp [v Hv]. unfold coroutine_body, store, loop_test, load.
  rewrite Hrp, Hv. simpl. rewrite mem_lookup_insert. simpl.
  destruct (0 <? bound); reflexivity.
Qed.

Lemma body_resume s m c :
  resume_point s = YIELD_LINE ->
  m !! data s = Some c ->
  coroutine_body bound s m =
    let c' := wrap_int32 (c + 1) in
    if c' <? bound
    then Some (Returned (wrap_int32 (c' * 2)), set_resume_point s YIELD_LINE,
               <[data s := c']> m)
    else Some (FellOffEnd, set_resume_point s END_OF_SEQUENCE, <[data s := c']> m).
Proof.
  intros Hrp Hc. unfold coroutine_body, store, loop_test, load.
  rewrite Hrp, Hc. simpl. rewrite mem_lookup_insert. simpl.
  destruct (wrap_int32 (c + 1) <? bound); reflexivity.
Qed.

Lemma body_default s m :
  resume_point s <> START_OF_SEQUENCE ->
  resume_point s <> YIELD_LINE ->
  coroutine_body bound s m = Some (FellOffEnd, set_resume_point s END_OF_SEQUENCE, m).
Proof.
  intros H0 H1. unfold coroutine_body, START_OF_SEQUENCE in *.
  destruct (Z.eqb_spec (resume_point s) 0); [contradiction|].
  destruct (Z.eqb_spec (resume_point s) YIELD_LINE); [contradiction|].
  reflexivity.
Qed.

End BodyFacts.

(** ** Inversion of a call *)

Lemma set_resume_point_same s :
  set_resume_point s (resume_point s) = s.
Proof. destruct s; reflexivity. Qed.

Lemma wrap_int32_small z : in_int32 z -> wrap_int32 z = z.
Proof.
  unfold in_int32, wrap_int32. intros Hz.
  rewrite Z.mod_small by lia. lia.
Qed.

Lemma wrap_int32_range z : in_int32 (wrap_int32 z).
Proof.
  unfold in_int32, wrap_int32.
  pose proof (Z.mod_pos_bound (z + 2 ^ 31) (2 ^ 32) ltac:(lia)). lia.
Qed.

(** Everything a returning call can have done, in one statement.  The
    struct keeps its [data] field; the memory is the old one, or the old
    one with the attached counter overwritten; and the result goes with the
    marker: a returned value with YIELD_LINE and a counter below the bound,
    no value with END_OF_SEQUENCE. *)
Lemma body_inv bound s m r s' m' :
  coroutine_body bound s m = Some (r, s', m') ->
  s' = set_resume_point s (resume_point s')
  /\ (m' = m \/ (attached s m /\ exists v, m' = <[data s := v]> m))
  /\ ((exists c, r = Returned (wrap_int32 (c * 2))
                 /\ resume_point s' = YIELD_LINE
                 /\ m' !! data s = Some c /\ c < bound
                 /\ (resume_point s = START_OF_SEQUENCE \/ resume_point s = YIELD_LINE))
       \/ (r = FellOffEnd /\ resume_point s' = END_OF_SEQUENCE
           /\ ((resume_point s <> START_OF_SEQUENCE
                /\ resume_point s <> YIELD_LINE /\ m' = m)
               \/ (exists c, m' !! data s = Some c /\ bound <= c)))).
Proof.
  intros Hcall.
  destruct (Z.eq_dec (resume_point s) START_OF_SEQUENCE) as [H0|H0].
  - destruct (m !! data s) as [v|] eqn:Hv.
    + assert (Hm : attached s m) by (unfold attached; rewrite Hv; eauto).
      rewrite (body_first_call bound s m H0 Hm) in Hcall.
      destruct (Z.ltb_spec 0 bound); inversion Hcall; subst; clear Hcall;
        (split; [reflexivity|]); (split; [right; eauto|]).
      * left. exists 0. rewrite mem_lookup_insert. repeat split; auto.
      * right. repeat split; auto. right. exists 0.
        rewrite mem_lookup_insert. auto.
    + unfold coroutine_body, store in Hcall. rewrite H0, Hv in Hcall. discriminate.
  - destruct (Z.eq_dec (resume_point s) YIELD_LINE) as [H1|H1].
    + destruct (m !! data s) as [c|] eqn:Hc.
      * assert (Hm : attached s m) by (unfold attached; rewrite Hc; eauto).
        rewrite (body_resume bound s m c H1 Hc) in Hcall. simpl in Hcall.
        destruct (Z.ltb_spec (wrap_int32 (c + 1)) bound); inversion Hcall; subst;
          clear Hcall; (split; [reflexivity|]); (split; [right; eauto|]).
        -- left. exists (wrap_int32 (c + 1)). rewrite mem_lookup_insert.
           repeat split; auto.
        -- right. repeat split; auto. right. exists (wrap_int32 (c + 1)).
           rewrite mem_lookup_insert. auto.
      * unfold coroutine_body, load in Hcall. rewrite H1, Hc in Hcall. discriminate.
    + rewrite (body_default bound s m H0 H1) in Hcall.
      inversion Hcall; subst. split; [reflexivity|]. split; [left; reflexivity|].
      right. repeat split; auto.
Qed.

Lemma body_marker bound s m r s' m' :
  coroutine_body bound s m = Some (r, s', m') ->
  resume_point s' = YIELD_LINE \/ resume_point s' = END_OF_SEQUENCE.
Proof.
  intros H. apply body_inv in H as (_ & _ & [(c & _ & ? & _)|(_ & ? & _)]); auto.
Qed.

Lemma body_exhausted bound s m :
  resume_point s = END_OF_SEQUENCE ->
  coroutine_body bound s m = Some (FellOffEnd, s, m).
Proof.
  intros H. rewrite body_default by (rewrite H; discriminate).
  rewrite <- H. rewrite set_resume_point_same. reflexivity.
Qed.

(** ** Calls of [coroutine_example] by the state they start from *)

Lemma example_first_call s m :
  resume_point s = START_OF_SEQUENCE ->
  attached s m ->
  coroutine_example s m =
    Some (Returned 0, set_resume_point s YIELD_LINE, <[data s := 0]> m).
Proof.
  intros Hrp Hm. unfold coroutine_example.
  rewrite body_first_call by assumption. reflexivity.
Qed.

Lemma example_resume_yield s m c :
  resume_point s = YIELD_LINE ->
  m !! data s = Some c ->
  0 <= c < 9 ->
  coroutine_example s m =
    Some (Returned (2 * (c + 1)), s, <[data s := c + 1]> m).
Proof.
  intros Hrp Hc Hr. unfold coroutine_example.
  rewrite (body_resume 10 s m c Hrp Hc). simpl.
  rewrite (wrap_int32_small (c + 1)) by (unfold in_int32; lia).
  rewrite (wrap_int32_small ((c + 1) * 2)) by (unfold in_int32; lia).
  destruct (Z.ltb_spec (c + 1) 10); [|lia].
  rewrite <- Hrp, set_resume_point_same.
  replace ((c + 1) * 2) with (2 * (c + 1)) by lia. reflexivity.
Qed.

Lemma example_resume_end s m c :
  resume_point s = YIELD_LINE ->
  m !! data s = Some c ->
  9 <= c < 2 ^ 31 - 1 ->
  coroutine_example s m =
    Some (FellOffEnd, set_resume_point s END_OF_SEQUENCE, <[data s := c + 1]> m).
Proof.
  intros Hrp Hc Hr. unfold coroutine_example.
  rewrite (body_resume 10 s m c Hrp Hc). simpl.
  rewrite (wrap_int32_small (c + 1)) by (unfold in_int32; lia).
  destruct (Z.ltb_spec (c + 1) 10); [lia|]. reflexivity.
Qed.

Lemma calls_S n s m :
  calls (S n) s m =
    '(obs, s1, m1) ← calls n s m;
    '(r, s2, m2) ← coroutine_example s1 m1;
    Some (obs ++ [(r, resume_point s2)], s2, m2).
Proof. reflexivity. Qed.

Lemma yields_S n :
  yields (S n) = yields n ++ [(Returned (2 * Z.of_nat n), YIELD_LINE)].
Proof. unfold yields. rewrite seq_S, map_app. reflexivity. Qed.

(** After [k + 1] calls on a fresh state, [k < 10]: the state is suspended
    at the yield site and the counter holds [k]. *)
Lemma calls_suspended k s m :
  resume_point s = START_OF_SEQUENCE ->
  attached s m ->
  (k < 10)%nat ->
  calls (S k) s m =
    Some (yields (S k), set_resume_point s YIELD_LINE, <[data s := Z.of_nat k]> m).
Proof.
  intros Hrp Hm. induction k as [|k IH]; intros Hk.
  - rewrite calls_S. simpl calls. simpl.
    rewrite example_first_call by assumption. reflexivity.
  - rewrite calls_S, IH by lia. simpl.
    rewrite (example_resume_yield _ _ (Z.of_nat k)); simpl;
      [| reflexivity | apply mem_lookup_insert | lia].
    rewrite mem_insert_insert, (yields_S (S k)).
    replace (Z.of_nat (S k)) with (Z.of_nat k + 1) by lia. reflexivity.
Qed.

Lemma calls_eleven s m :
  resume_point s = START_OF_SEQUENCE ->
  attached s m ->
  calls 11 s m =
    Some (yields 10 ++ [(FellOffEnd, END_OF_SEQUENCE)],
          set_resume_point s END_OF_SEQUENCE, <[data s := 10]> m).
Proof.
  intros Hrp Hm. rewrite calls_S, (calls_suspended 9) by (assumption || lia).
  simpl. rewrite (example_resume_end _ _ 9); simpl;
    [| reflexivity | apply mem_lookup_insert | lia].
  rewrite mem_insert_insert. reflexivity.
Qed.

(** Calls on an exhausted state change nothing, however many are made. *)
Lemma calls_exhausted n s m :
  resume_point s = END_OF_SEQUENCE ->
  calls n s m = Some (repeat (FellOffEnd, END_OF_SEQUENCE) n, s, m).
Proof.
  intros Hrp. induction n as [|n IH]; [reflexivity|].
  rewrite calls_S, IH. simpl. unfold coroutine_example.
  rewrite body_exhausted by assumption. simpl.
  rewrite Hrp, <- repeat_cons. reflexivity.
Qed.

(** ** The produced sequence *)

(** C1. From a freshly initialized state with an attached counter, the
    n-th call (counted from 0) returns [2 * n] for every n from 0 to 9 and
    leaves the state not complete; the 11th call returns no value and
    leaves the state complete, [resume_point = END_OF_SEQUENCE]. *)
Theorem doubled_values_then_exhaustion s m :
  resume_point s = START_OF_SEQUENCE ->
  attached s m ->
  (forall n : nat, (n <= 9)%nat ->
     exists s', nth_call n s m = Some (Returned (2 * Z.of_nat n), s')
                /\ COROUTINE_SEQUENCE_COMPLETE s' = false)
  /\ (exists s', nth_call 10 s m = Some (FellOffEnd, s')
                 /\ resume_point s' = END_OF_SEQUENCE
                 /\ COROUTINE_SEQUENCE_COMPLETE s' = true).
Proof.
  intros Hrp Hm. split.
  - intros n Hn. exists (set_resume_point s YIELD_LINE). split; [|reflexivity].
    unfold nth_call. destruct n as [|k].
    + simpl. rewrite example_first_call by assumption. reflexivity.
    + rewrite calls_suspended by (assumption || lia). simpl.
      rewrite (example_resume_yield _ _ (Z.of_nat k)); simpl;
        [| reflexivity | apply mem_lookup_insert | lia].
      replace (Z.of_nat (S k)) with (Z.of_nat k + 1) by lia. reflexivity.
  - exists (set_resume_point s END_OF_SEQUENCE). split; [|split; reflexivity].
    unfold nth_call. rewrite (calls_suspended 9) by (assumption || lia). simpl.
    rewrite (example_resume_end _ _ 9); simpl;
      [| reflexivity | apply mem_lookup_insert | lia].
    reflexivity.
Qed.

Lemma doubled_values_then_exhaustion_witness :
  resume_point sample_fresh = START_OF_SEQUENCE
  /\ attached sample_fresh sample_memory
  /\ (forall n : nat, (n <= 9)%nat ->
        exists s', nth_call n sample_fresh sample_memory
                   = Some (Returned (2 * Z.of_nat n), s')
                   /\ COROUTINE_SEQUENCE_COMPLETE s' = false)
  /\ (exists s', nth_call 10 sample_fresh sample_memory = Some (FellOffEnd, s')
                 /\ resume_point s' = END_OF_SEQUENCE
                 /\ COROUTINE_SEQUENCE_COMPLETE s' = true).
Proof.
  split; [reflexivity|]. split; [exists 77; reflexivity|].
  apply (doubled_values_then_exhaustion sample_fresh sample_memory);
    [reflexivity | exists 77; reflexivity].
Defined.

(** ** After exhaustion *)

(** C3. On a state whose [resume_point] is END_OF_SEQUENCE, whatever the
    [data] field and the memory hold, any number of calls is a no-op: every
    call returns through the closing brace without a value, the state stays
    as it was with [resume_point = END_OF_SEQUENCE], and the memory, the
    counter included, is the one before the calls. *)
Theorem exhausted_calls_are_noops n s m :
  resume_point s = END_OF_SEQUENCE ->
  coroutine_example s m = Some (FellOffEnd, s, m)
  /\ calls n s m = Some (repeat (FellOffEnd, END_OF_SEQUENCE) n, s, m)
  /\ COROUTINE_SEQUENCE_COMPLETE s = true.
Proof.
  intros Hrp. split; [apply body_exhausted; assumption|].
  split; [apply calls_exhausted; assumption|].
  unfold COROUTINE_SEQUENCE_COMPLETE. rewrite Hrp. reflexivity.
Qed.

Lemma exhausted_calls_are_noops_witness :
  resume_point sample_exhausted = END_OF_SEQUENCE
  /\ coroutine_example sample_exhausted sample_memory
     = Some (FellOffEnd, sample_exhausted, sample_memory)
  /\ calls 3 sample_exhausted sample_memory
     = Some (repeat (FellOffEnd, END_OF_SEQUENCE) 3, sample_exhausted, sample_memory)
  /\ COROUTINE_SEQUENCE_COMPLETE sample_exhausted = true.
Proof.
  split; [reflexivity|].
  apply (exhausted_calls_are_noops 3 sample_exhausted sample_memory).
  reflexivity.
Defined.

(** ** Suspension against the plain loop *)

Section Refinement.

Variable bound : Z.

(** Resuming at the yield site goes on with the loop where it stood: the
    rest of the run is the plain loop continued from the incremented
    counter, not restarted from its initializer. *)
Lemma run_resumes fuel : forall s m c,
  resume_point s = YIELD_LINE ->
  m !! data s = Some c ->
  run_to_exhaustion bound fuel s m
    = plain_loop_from bound fuel (wrap_int32 (c + 1)).
Proof.
  induction fuel as [|fuel IH]; intros s m c Hrp Hc; [reflexivity|].
  simpl. rewrite (body_resume bound s m c Hrp Hc). cbv zeta.
  destruct (wrap_int32 (c + 1) <? bound); [|reflexivity].
  simpl. rewrite (IH _ _ (wrap_int32 (c + 1)));
    [reflexivity | reflexivity | apply mem_lookup_insert].
Qed.

Lemma run_fresh fuel s m :
  resume_point s = START_OF_SEQUENCE ->
  attached s m ->
  run_to_exhaustion bound fuel s m = plain_loop bound fuel.
Proof.
  intros Hrp Hm. destruct fuel as [|fuel]; [reflexivity|].
  unfold plain_loop. simpl. rewrite body_first_call by assumption.
  destruct (0 <? bound); [|reflexivity].
  simpl. rewrite (run_resumes fuel _ _ 0);
    [reflexivity | reflexivity | apply mem_lookup_insert].
Qed.

Lemma plain_loop_from_more_fuel fuel : forall extra c vs,
  plain_loop_from bound fuel c = Some vs ->
  plain_loop_from bound (fuel + extra) c = Some vs.
Proof.
  induction fuel as [|fuel IH]; intros extra c vs H; [discriminate|].
  simpl in *. destruct (c <? bound); [|assumption].
  destruct (plain_loop_from bound fuel (wrap_int32 (c + 1))) as [ws|] eqn:E;
    [|discriminate].
  rewrite (IH extra _ ws E). assumption.
Qed.

End Refinement.

(** C2. The values taken by a caller that calls [coroutine_example] on a
    fresh state until it observes exhaustion are those of the plain loop
    [for (counter = 0; counter < 10; counter++) emit (counter * 2)] run in
    one pass, with the same fuel on both sides; with fuel for 11 calls both
    are 0, 2, ..., 18.  A run taken up after [k] calls, [1 <= k <= 10],
    equals the plain loop continued at [counter = k]: resuming does not
    initialize the loop again. *)
Theorem suspension_is_transparent fuel s m :
  resume_point s = START_OF_SEQUENCE ->
  attached s m ->
  run_to_exhaustion 10 fuel s m = plain_loop 10 fuel
  /\ ((11 <= fuel)%nat ->
      run_to_exhaustion 10 fuel s m = Some [0; 2; 4; 6; 8; 10; 12; 14; 16; 18])
  /\ (forall (k : nat) obs s1 m1, (1 <= k <= 10)%nat ->
        calls k s m = Some (obs, s1, m1) ->
        run_to_exhaustion 10 fuel s1 m1 = plain_loop_from 10 fuel (Z.of_nat k)).
Proof.
  intros Hrp Hm. split; [apply run_fresh; assumption|]. split.
  - intros Hfuel. rewrite run_fresh by assumption.
    replace fuel with (11 + (fuel - 11))%nat by lia.
    apply plain_loop_from_more_fuel. reflexivity.
  - intros k obs s1 m1 Hk Hcalls. destruct k as [|k]; [lia|].
    rewrite calls_suspended in Hcalls by (assumption || lia).
    inversion Hcalls; subst; clear Hcalls.
    rewrite (run_resumes 10 fuel _ _ (Z.of_nat k));
      [| reflexivity | apply mem_lookup_insert].
    rewrite wrap_int32_small by (unfold in_int32; lia).
    f_equal. lia.
Qed.

Lemma suspension_is_transparent_witness :
  resume_point sample_fresh = START_OF_SEQUENCE
  /\ attached sample_fresh sample_memory
  /\ run_to_exhaustion 10 11 sample_fresh sample_memory = plain_loop 10 11
  /\ run_to_exhaustion 10 11 sample_fresh sample_memory
     = Some [0; 2; 4; 6; 8; 10; 12; 14; 16; 18].
Proof.
  split; [reflexivity|]. split; [exists 77; reflexivity|].
  destruct (suspension_is_transparent 11 sample_fresh sample_memory)
    as (Hloop & Hvalues & _); [reflexivity | exists 77; reflexivity |].
  split; [exact Hloop | apply Hvalues; lia].
Defined.

(** ** A loop that never runs *)

(** C9. With the loop bound generalized, a bound that makes the loop
    condition false on entry ([bound <= 0], the initializer having set the
    counter to 0) sends the first call from START_OF_SEQUENCE straight to
    END_OF_SEQUENCE: the call returns no value, and a caller that runs the
    generator to exhaustion takes no value at all. *)
Theorem empty_sequence_exhausts_at_once bound fuel s m :
  bound <= 0 ->
  resume_point s = START_OF_SEQUENCE ->
  attached s m ->
  coroutine_body bound s m
    = Some (FellOffEnd, set_resume_point s END_OF_SEQUENCE, <[data s := 0]> m)
  /\ COROUTINE_SEQUENCE_COMPLETE (set_resume_point s END_OF_SEQUENCE) = true
  /\ run_to_exhaustion bound (S fuel) s m = Some [].
Proof.
  intros Hb Hrp Hm.
  assert (Hcall : coroutine_body bound s m
    = Some (FellOffEnd, set_resume_point s END_OF_SEQUENCE, <[data s := 0]> m)).
  { rewrite body_first_call by assumption.
    destruct (Z.ltb_spec 0 bound); [lia | reflexivity]. }
  split; [exact Hcall|]. split; [reflexivity|].
  simpl. rewrite Hcall. reflexivity.
Qed.

Lemma empty_sequence_exhausts_at_once_witness :
  0 <= 0
  /\ resume_point sample_fresh = START_OF_SEQUENCE
  /\ attached sample_fresh sample_memory
  /\ coroutine_body 0 sample_fresh sample_memory
     = Some (FellOffEnd, set_resume_point sample_fresh END_OF_SEQUENCE,
             <[data sample_fresh := 0]> sample_memory)
  /\ COROUTINE_SEQUENCE_COMPLETE (set_resume_point sample_fresh END_OF_SEQUENCE) = true
  /\ run_to_exhaustion 0 (S 0) sample_fresh sample_memory = Some [].
Proof.
  split; [lia|]. split; [reflexivity|]. split; [exists 77; reflexivity|].
  apply (empty_sequence_exhausts_at_once 0 0 sample_fresh sample_memory);
    [lia | reflexivity | exists 77; reflexivity].
Defined.

(** ** Frame, totality and reachability *)

Lemma body_frame bound s m r s' m' :
  coroutine_body bound s m = Some (r, s', m') ->
  data s' = data s
  /\ (forall q, q <> data s -> m' !! q = m !! q)
  /\ dom m' = dom m.
Proof.
  intros H. apply body_inv in H as (Hs & Hm & _).
  split; [rewrite Hs; reflexivity|].
  destruct Hm as [->|(Ha & v & ->)]; [auto|].
  split; [intros q Hq; apply mem_lookup_insert_ne; congruence|].
  apply dom_insert_lookup_L. exact Ha.
Qed.

Lemma body_keeps_attached bound s m r s' m' :
  coroutine_body bound s m = Some (r, s', m') ->
  attached s m -> attached s' m'.
Proof.
  intros H Ha. apply body_frame in H as (Hd & _ & Hdom).
  unfold attached in *. rewrite Hd.
  apply elem_of_dom. rewrite Hdom. apply elem_of_dom. exact Ha.
Qed.

Lemma body_total bound s m :
  attached s m -> is_Some (coroutine_body bound s m).
Proof.
  intros Ha.
  destruct (Z.eq_dec (resume_point s) START_OF_SEQUENCE) as [H0|H0].
  - rewrite body_first_call by assumption. destruct (0 <? bound); eauto.
  - destruct (Z.eq_dec (resume_point s) YIELD_LINE) as [H1|H1].
    + destruct Ha as [c Hc]. rewrite (body_resume bound s m c H1 Hc). simpl.
      destruct (wrap_int32 (c + 1) <? bound); eauto.
    + rewrite body_default by assumption. eauto.
Qed.

(** A call returns exactly when the storage is attached or the marker
    sends it to [default], where the counter is not touched. *)
Lemma body_returns_iff bound s m :
  is_Some (coroutine_body bound s m) <->
  attached s m
  \/ (resume_point s <> START_OF_SEQUENCE /\ resume_point s <> YIELD_LINE).
Proof.
  split.
  - intros Hsome.
    destruct (Z.eq_dec (resume_point s) START_OF_SEQUENCE) as [H0|H0];
      [|destruct (Z.eq_dec (resume_point s) YIELD_LINE) as [H1|H1]];
      [| |right; auto];
      left; unfold attached; destruct (m !! data s) as [c|] eqn:Hc; eauto;
      exfalso; unfold coroutine_body, store, load in Hsome;
      [rewrite H0, Hc in Hsome | rewrite H1, Hc in Hsome];
      simpl in Hsome; destruct Hsome as [? Hsome]; discriminate.
  - intros [Ha|[H0 H1]]; [apply body_total; exact Ha|].
    rewrite body_default by assumption. eauto.
Qed.

Lemma calls_S_inv n s m obs s' m' :
  calls (S n) s m = Some (obs, s', m') ->
  exists obs1 s1 m1 r,
    calls n s m = Some (obs1, s1, m1)
    /\ coroutine_example s1 m1 = Some (r, s', m')
    /\ obs = obs1 ++ [(r, resume_point s')].
Proof.
  rewrite calls_S. intros H.
  destruct (calls n s m) as [[[obs1 s1] m1]|]; [|discriminate]. simpl in H.
  destruct (coroutine_example s1 m1) as [[[r s2] m2]|] eqn:Hcall; [|discriminate].
  simpl in H. inversion H; subst. exists obs1, s1, m1, r. repeat split; auto.
Qed.

Lemma calls_total n : forall s m,
  attached s m ->
  exists obs s' m', calls n s m = Some (obs, s', m') /\ attached s' m'.
Proof.
  induction n as [|n IH]; intros s m Ha; [simpl; eauto 10|].
  destruct (IH s m Ha) as (obs & s1 & m1 & Hn & Ha1).
  destruct (body_total 10 s1 m1 Ha1) as [[[r s2] m2] Hcall].
  exists (obs ++ [(r, resume_point s2)]), s2, m2. split.
  - rewrite calls_S, Hn. simpl. unfold coroutine_example. rewrite Hcall. reflexivity.
  - eapply body_keeps_attached; eassumption.
Qed.

Lemma calls_after a b : forall s m obs1 s1 m1,
  calls a s m = Some (obs1, s1, m1) ->
  calls (a + b) s m =
    '(obs2, s2, m2) ← calls b s1 m1; Some (obs1 ++ obs2, s2, m2).
Proof.
  induction b as [|b IH]; intros s m obs1 s1 m1 Ha.
  - rewrite Nat.add_0_r, Ha. simpl. rewrite app_nil_r. reflexivity.
  - rewrite Nat.add_succ_r, !calls_S, (IH _ _ _ _ _ Ha).
    destruct (calls b s1 m1) as [[[obs2 s2] m2]|]; [|reflexivity]. simpl.
    destruct (coroutine_example s2 m2) as [[[r s3] m3]|]; [|reflexivity]. simpl.
    rewrite app_assoc. reflexivity.
Qed.

(** On a run from a fresh state the counter stays between 0 and 10 once
    the first call has been made, so that neither [++] nor [* 2] leaves
    the int32 range. *)
Lemma calls_counter_range n s0 m0 obs s m :
  resume_point s0 = START_OF_SEQUENCE ->
  attached s0 m0 ->
  calls (S n) s0 m0 = Some (obs, s, m) ->
  exists c, m !! data s = Some c /\ 0 <= c <= 10.
Proof.
  intros Hrp Ha Hcalls. destruct (Nat.lt_ge_cases n 10) as [Hn|Hn].
  - rewrite calls_suspended in Hcalls by assumption.
    inversion Hcalls; subst. exists (Z.of_nat n). simpl.
    rewrite mem_lookup_insert. split; [reflexivity | lia].
  - replace (S n) with (11 + (n - 10))%nat in Hcalls by lia.
    rewrite (calls_after _ _ _ _ _ _ _ (calls_eleven s0 m0 Hrp Ha)) in Hcalls.
    rewrite calls_exhausted in Hcalls; [|reflexivity]. simpl in Hcalls.
    inversion Hcalls; subst. exists 10. simpl.
    rewrite mem_lookup_insert. split; [reflexivity | lia].
Qed.

Lemma position_of_exhausted s :
  position_of s = EXHAUSTED <-> resume_point s = END_OF_SEQUENCE.
Proof.
  unfold position_of.
  destruct (Z.eqb_spec (resume_point s) START_OF_SEQUENCE) as [H0|H0].
  - split; [discriminate|]. intros H. rewrite H in H0. discriminate.
  - destruct (Z.eqb_spec (resume_point s) END_OF_SEQUENCE) as [H1|H1].
    + split; auto.
    + split; [discriminate | contradiction].
Qed.

Lemma position_of_yield s :
  resume_point s = YIELD_LINE -> position_of s = SUSPENDED YIELD_LINE.
Proof. unfold position_of. intros ->. reflexivity. Qed.

Lemma reachable_marker s m :
  reachable s m ->
  resume_point s = START_OF_SEQUENCE
  \/ resume_point s = YIELD_LINE
  \/ resume_point s = END_OF_SEQUENCE.
Proof.
  intros (n & s0 & m0 & obs & H0 & Hcalls). destruct n as [|n].
  - inversion Hcalls; subst. auto.
  - apply calls_S_inv in Hcalls as (obs1 & s1 & m1 & r & _ & Hcall & _).
    apply body_marker in Hcall. tauto.
Qed.

(** One call, from any state, moves along an arrow of the state machine
    and ends at the yield marker or at the end marker. *)
Lemma call_transition s m r s' m' :
  coroutine_example s m = Some (r, s', m') ->
  transition (position_of s) (position_of s')
  /\ (position_of s' = SUSPENDED YIELD_LINE \/ position_of s' = EXHAUSTED).
Proof.
  intros Hcall.
  destruct (Z.eq_dec (resume_point s) END_OF_SEQUENCE) as [Hend|Hend].
  - unfold coroutine_example in Hcall.
    rewrite (body_exhausted 10 s m Hend) in Hcall. inversion Hcall; subst.
    apply position_of_exhausted in Hend. rewrite Hend.
    split; [constructor | auto].
  - assert (Hs' : position_of s' = SUSPENDED YIELD_LINE \/ position_of s' = EXHAUSTED).
    { destruct (body_marker _ _ _ _ _ _ Hcall) as [H|H].
      - left. apply position_of_yield. exact H.
      - right. apply position_of_exhausted. exact H. }
    split; [|exact Hs'].
    destruct (position_of s) eqn:Hpos.
    + destruct Hs' as [-> | ->]; constructor.
    + destruct Hs' as [-> | ->]; constructor.
    + apply position_of_exhausted in Hpos. contradiction.
Qed.

(** ** The state machine *)

(** C4. A call on a reachable state follows one of the transitions of the
    specification; the markers met on the way are START_OF_SEQUENCE,
    YIELD_LINE (the only yield site) and END_OF_SEQUENCE, and after the
    call only the last two; and from an exhausted state any number of
    further calls leaves the state, and the memory, where they are. *)
Theorem calls_follow_state_machine n s m r s' m' :
  reachable s m ->
  coroutine_example s m = Some (r, s', m') ->
  transition (position_of s) (position_of s')
  /\ (resume_point s = START_OF_SEQUENCE \/ resume_point s = YIELD_LINE
      \/ resume_point s = END_OF_SEQUENCE)
  /\ (resume_point s' = YIELD_LINE \/ resume_point s' = END_OF_SEQUENCE)
  /\ (position_of s' = SUSPENDED YIELD_LINE \/ position_of s' = EXHAUSTED)
  /\ (position_of s = EXHAUSTED -> position_of s' = EXHAUSTED)
  /\ (position_of s' = EXHAUSTED ->
      exists obs, calls n s' m' = Some (obs, s', m')).
Proof.
  intros Hreach Hcall.
  destruct (call_transition _ _ _ _ _ Hcall) as [Htr Hs'].
  split; [exact Htr|]. split; [exact (reachable_marker _ _ Hreach)|].
  split; [exact (body_marker _ _ _ _ _ _ Hcall)|]. split; [exact Hs'|]. split.
  - intros Hpos. rewrite Hpos in Htr. inversion Htr. reflexivity.
  - intros Hpos. apply position_of_exhausted in Hpos.
    rewrite calls_exhausted by assumption. eauto.
Qed.

Lemma calls_follow_state_machine_witness :
  reachable sample_fresh sample_memory
  /\ coroutine_example sample_fresh sample_memory
     = Some (Returned 0, set_resume_point sample_fresh YIELD_LINE,
             <[4096 := 0]> sample_memory)
  /\ transition (position_of sample_fresh)
       (position_of (set_resume_point sample_fresh YIELD_LINE)).
Proof.
  assert (Hreach : reachable sample_fresh sample_memory).
  { exists 0%nat, sample_fresh, sample_memory, []. split; reflexivity. }
  assert (Hcall : coroutine_example sample_fresh sample_memory
     = Some (Returned 0, set_resume_point sample_fresh YIELD_LINE,
             <[4096 := 0]> sample_memory)).
  { vm_compute. reflexivity. }
  split; [exact Hreach|]. split; [exact Hcall|].
  exact (proj1 (calls_follow_state_machine 0 _ _ _ _ _ Hreach Hcall)).
Defined.

(** C5. On a run from a freshly initialized state, [resume_point] equals
    START_OF_SEQUENCE exactly when no call has been made yet; and whatever
    state the run has reached, the next call leaves a marker other than
    START_OF_SEQUENCE. *)
Theorem not_started_only_before_first_call n s0 m0 obs s m :
  resume_point s0 = START_OF_SEQUENCE ->
  calls n s0 m0 = Some (obs, s, m) ->
  (resume_point s = START_OF_SEQUENCE <-> n = 0%nat)
  /\ (forall r s' m', coroutine_example s m = Some (r, s', m') ->
        resume_point s' <> START_OF_SEQUENCE).
Proof.
  intros H0 Hcalls. split.
  - destruct n as [|n].
    + inversion Hcalls; subst. tauto.
    + apply calls_S_inv in Hcalls as (obs1 & s1 & m1 & r & _ & Hcall & _).
      split; [|discriminate]. intros Hs.
      destruct (body_marker _ _ _ _ _ _ Hcall) as [H|H];
        rewrite Hs in H; discriminate.
  - intros r s' m' Hcall Hs.
    destruct (body_marker _ _ _ _ _ _ Hcall) as [H|H];
      rewrite Hs in H; discriminate.
Qed.

Lemma not_started_only_before_first_call_witness :
  resume_point sample_fresh = START_OF_SEQUENCE
  /\ calls 2 sample_fresh sample_memory
     = Some ([(Returned 0, YIELD_LINE); (Returned 2, YIELD_LINE)],
             set_resume_point sample_fresh YIELD_LINE, <[4096 := 1]> sample_memory)
  /\ (resume_point (set_resume_point sample_fresh YIELD_LINE) = START_OF_SEQUENCE
      <-> 2%nat = 0%nat).
Proof.
  assert (Hcalls : calls 2 sample_fresh sample_memory
     = Some ([(Returned 0, YIELD_LINE); (Returned 2, YIELD_LINE)],
             set_resume_point sample_fresh YIELD_LINE, <[4096 := 1]> sample_memory)).
  { vm_compute. reflexivity. }
  split; [reflexivity|]. split; [exact Hcalls|].
  exact (proj1 (not_started_only_before_first_call 2 sample_fresh sample_memory
                  _ _ _ eq_refl Hcalls)).
Defined.

(** ** The initial value of the counter *)

Lemma calls_forget_initial k s m v1 v2 :
  resume_point s = START_OF_SEQUENCE ->
  calls (S k) s (<[data s := v1]> m) = calls (S k) s (<[data s := v2]> m).
Proof.
  intros Hrp. induction k as [|k IH].
  - rewrite !calls_S. simpl.
    rewrite !example_first_call by (assumption || attached_by_insert).
    simpl. rewrite !mem_insert_insert. reflexivity.
  - rewrite (calls_S (S k)), IH. reflexivity.
Qed.

(** C10. The value stored in the attached counter before the first call
    is not observable: for any two initial values the [n] calls on a fresh
    state return, and yield the same results and the same markers; from
    the first call on, the states and memories agree as well. *)
Theorem initial_counter_is_irrelevant n s m v1 v2 :
  resume_point s = START_OF_SEQUENCE ->
  trace n s (<[data s := v1]> m) = trace n s (<[data s := v2]> m)
  /\ is_Some (trace n s (<[data s := v1]> m))
  /\ ((1 <= n)%nat ->
      calls n s (<[data s := v1]> m) = calls n s (<[data s := v2]> m)).
Proof.
  intros Hrp. split; [|split].
  - unfold trace. destruct n as [|n]; [reflexivity|].
    rewrite (calls_forget_initial n s m v1 v2 Hrp). reflexivity.
  - assert (Ha : attached s (<[data s := v1]> m)) by attached_by_insert.
    destruct (calls_total n _ _ Ha) as (obs & s' & m' & Hcalls & _).
    unfold trace. rewrite Hcalls. simpl. eauto.
  - intros Hn. destruct n as [|n]; [lia|].
    apply calls_forget_initial. exact Hrp.
Qed.

Lemma initial_counter_is_irrelevant_witness :
  resume_point sample_fresh = START_OF_SEQUENCE
  /\ trace 12 sample_fresh (<[data sample_fresh := 5]> sample_memory)
     = trace 12 sample_fresh (<[data sample_fresh := -40]> sample_memory).
Proof.
  split; [reflexivity|].
  exact (proj1 (initial_counter_is_irrelevant 12 sample_fresh sample_memory
                  5 (-40) eq_refl)).
Defined.

(** ** The driver *)

Lemma append_assoc (a b c : string) :
  ((a +:+ b) +:+ c = a +:+ (b +:+ c))%string.
Proof.
  induction a as [|ch a IH]; [reflexivity|].
  change (String ch ((a +:+ b) +:+ c) = String ch (a +:+ (b +:+ c)))%string.
  rewrite IH. reflexivity.
Qed.

Lemma append_empty_r (a : string) : (a +:+ EmptyString)%string = a.
Proof.
  induction a as [|ch a IH]; [reflexivity|].
  change (String ch (a +:+ EmptyString)%string = String ch a).
  rewrite IH. reflexivity.
Qed.

(** The loop of [main] taken up in a suspended state whose counter is
    [9 - d]: it prints the [d] values still to come and stops. *)
Lemma main_loop_suspended indeterminate (d : nat) : forall fuel c s m stdout,
  resume_point s = YIELD_LINE ->
  m !! data s = Some c ->
  c = 9 - Z.of_nat d ->
  (d <= 9)%nat ->
  (d < fuel)%nat ->
  main_loop fuel indeterminate s m stdout
    = Some (stdout +:+ output_lines (doubled_from (c + 1) d))%string.
Proof.
  induction d as [|d IH]; intros fuel c s m stdout Hrp Hc Hcd Hd Hfuel;
    (destruct fuel as [|fuel]; [lia|]); simpl main_loop.
  - rewrite (example_resume_end s m c Hrp Hc) by lia. simpl.
    rewrite append_empty_r. reflexivity.
  - rewrite (example_resume_yield s m c Hrp Hc) by lia. simpl.
    unfold COROUTINE_SEQUENCE_COMPLETE. rewrite Hrp. simpl.
    rewrite (IH fuel (c + 1)); [| assumption | apply mem_lookup_insert | lia ..].
    rewrite append_assoc. reflexivity.
Qed.

(** C8. Given fuel for at least 11 calls, [main] terminates with exit
    code 0, whatever the uninitialized locals, the address of the counter,
    the rest of the memory and the indeterminate value read after the last
    call are.  It leaves its loop on the test of the state after the 11th
    call, and what it has written to standard output by then is one line
    for each of 0, 2, 4, ..., 18, in this order, and nothing else. *)
Theorem main_prints_ten_values fuel indeterminate state state_data m :
  (11 <= fuel)%nat ->
  main fuel indeterminate state state_data m
    = Some (0, output_lines [0; 2; 4; 6; 8; 10; 12; 14; 16; 18])
  /\ output_lines [0; 2; 4; 6; 8; 10; 12; 14; 16; 18]
     = "Output: 0
Output: 2
Output: 4
Output: 6
Output: 8
Output: 10
Output: 12
Output: 14
Output: 16
Output: 18
"%string.
Proof.
  intros Hfuel. split; [|reflexivity].
  destruct fuel as [|fuel]; [lia|].
  unfold main. simpl main_loop.
  rewrite example_first_call; [| reflexivity | attached_by_insert].
  simpl.
  rewrite (main_loop_suspended indeterminate 9 fuel 0);
    [| reflexivity | apply mem_lookup_insert | lia ..].
  reflexivity.
Qed.

Lemma main_prints_ten_values_witness :
  (11 <= 11)%nat
  /\ main 11 (-1) sample_exhausted 4200 sample_memory
     = Some (0, output_lines [0; 2; 4; 6; 8; 10; 12; 14; 16; 18]).
Proof.
  split; [lia|].
  exact (proj1 (main_prints_ten_values 11 (-1) sample_exhausted 4200 sample_memory
                  (le_n 11))).
Defined.

(** * Further properties of the code *)

(** ** The state test and the returned value *)

(** X1. After a call that returns, COROUTINE_SEQUENCE_COMPLETE holds on the
    state exactly when the call ran through the closing brace, and fails
    exactly when a [return] statement produced a value: a caller that
    tests the state, as [main] does, never reads a value that was not
    returned and never drops one that was. *)
Theorem complete_iff_no_value s m r s' m' :
  coroutine_example s m = Some (r, s', m') ->
  (COROUTINE_SEQUENCE_COMPLETE s' = true <-> r = FellOffEnd)
  /\ (COROUTINE_SEQUENCE_COMPLETE s' = false <-> exists v, r = Returned v).
Proof.
  intros Hcall. unfold COROUTINE_SEQUENCE_COMPLETE.
  apply body_inv in Hcall as (_ & _ & [(c & -> & -> & _)|(-> & -> & _)]);
    simpl; split; split; intros H; try discriminate; try reflexivity; eauto.
  destruct H as [v H]. discriminate.
Qed.

Lemma complete_iff_no_value_witness :
  coroutine_example sample_suspended sample_memory
    = Some (Returned 8, sample_suspended, <[4104 := 4]> sample_memory)
  /\ (COROUTINE_SEQUENCE_COMPLETE sample_suspended = false
      <-> exists v, Returned 8 = Returned v).
Proof.
  assert (Hcall : coroutine_example sample_suspended sample_memory
    = Some (Returned 8, sample_suspended, <[4104 := 4]> sample_memory)).
  { vm_compute. reflexivity. }
  split; [exact Hcall|].
  exact (proj2 (complete_iff_no_value _ _ _ _ _ Hcall)).
Defined.

(** ** Markers the switch does not know *)

(** X2. A [resume_point] that is neither 0 nor the line of the yield
    takes the [default] label: the call returns no value, sets
    END_OF_SEQUENCE and reads or writes no memory, so it returns even when
    [data] points nowhere; a caller running to exhaustion stops after this
    one call with no value taken. *)
Theorem unknown_marker_ends_sequence fuel s m :
  resume_point s <> START_OF_SEQUENCE ->
  resume_point s <> YIELD_LINE ->
  coroutine_example s m
    = Some (FellOffEnd, set_resume_point s END_OF_SEQUENCE, m)
  /\ run_to_exhaustion 10 (S fuel) s m = Some [].
Proof.
  intros H0 H1.
  assert (Hcall : coroutine_body 10 s m
    = Some (FellOffEnd, set_resume_point s END_OF_SEQUENCE, m))
    by (apply body_default; assumption).
  split; [exact Hcall|]. simpl. rewrite Hcall. reflexivity.
Qed.

Lemma unknown_marker_ends_sequence_witness :
  resume_point {| resume_point := 55; data := 0 |} <> START_OF_SEQUENCE
  /\ resume_point {| resume_point := 55; data := 0 |} <> YIELD_LINE
  /\ coroutine_example {| resume_point := 55; data := 0 |} sample_memory
     = Some (FellOffEnd,
             set_resume_point {| resume_point := 55; data := 0 |} END_OF_SEQUENCE,
             sample_memory).
Proof.
  assert (H0 : resume_point {| resume_point := 55; data := 0 |} <> START_OF_SEQUENCE)
    by (vm_compute; discriminate).
  assert (H1 : resume_point {| resume_point := 55; data := 0 |} <> YIELD_LINE)
    by (vm_compute; discriminate).
  split; [exact H0|]. split; [exact H1|].
  exact (proj1 (unknown_marker_ends_sequence 0 _ sample_memory H0 H1)).
Defined.

(** X3. A call returns exactly when the counter storage is attached or
    the marker is one the switch sends to [default]: the counter is
    dereferenced on entry at 0 and at the yield line, and nowhere else. *)
Theorem call_returns_iff s m :
  is_Some (coroutine_example s m) <->
  attached s m
  \/ (resume_point s <> START_OF_SEQUENCE /\ resume_point s <> YIELD_LINE).
Proof. apply body_returns_iff. Qed.

(** ** Any number of calls on a fresh state *)

(** X5. The outcome of [n >= 1] calls on a fresh state, in closed form:
    the first ten calls yield 0, 2, ..., 18 and every later one yields
    nothing; the marker is the yield line up to the tenth call and
    END_OF_SEQUENCE from the eleventh on; the counter holds the number of
    calls made less one, and stays at 10 once the sequence is exhausted. *)
Theorem calls_closed_form n s m :
  resume_point s = START_OF_SEQUENCE ->
  attached s m ->
  (1 <= n)%nat ->
  calls n s m =
    Some (yields (Nat.min n 10) ++ repeat (FellOffEnd, END_OF_SEQUENCE) (n - 10),
          set_resume_point s
            (if (n <=? 10)%nat then YIELD_LINE else END_OF_SEQUENCE),
          <[data s := Z.of_nat (Nat.min (n - 1) 10)]> m).
Proof.
  intros Hrp Ha Hn. destruct (Nat.leb_spec n 10) as [Hle|Hgt].
  - destruct n as [|k]; [lia|].
    rewrite calls_suspended by (assumption || lia).
    rewrite Nat.min_l by lia.
    replace (S k - 10)%nat with 0%nat by lia.
    replace (Nat.min (S k - 1) 10) with k by lia.
    simpl repeat. rewrite app_nil_r. reflexivity.
  - replace n with (11 + (n - 11))%nat at 1 by lia.
    rewrite (calls_after _ _ _ _ _ _ _ (calls_eleven s m Hrp Ha)).
    rewrite calls_exhausted; [|reflexivity]. simpl mbind.
    rewrite Nat.min_r by lia.
    replace (Nat.min (n - 1) 10) with 10%nat by lia.
    replace (n - 10)%nat with (S (n - 11)) by lia.
    reflexivity.
Qed.

Lemma calls_closed_form_witness :
  resume_point sample_fresh = START_OF_SEQUENCE
  /\ attached sample_fresh sample_memory
  /\ (1 <= 13)%nat
  /\ calls 13 sample_fresh sample_memory =
       Some (yields 10 ++ repeat (FellOffEnd, END_OF_SEQUENCE) 3,
             set_resume_point sample_fresh END_OF_SEQUENCE,
             <[4096 := 10]> sample_memory).
Proof.
  split; [reflexivity|]. split; [exists 77; reflexivity|]. split; [lia|].
  apply (calls_closed_form 13 sample_fresh sample_memory);
    [reflexivity | exists 77; reflexivity | lia].
Defined.

(** ** Starting over *)

(** X6. COROUTINE_INIT starts the generator over from wherever it stands:
    after any number of calls on a state with attached storage, whether the
    sequence is in progress or exhausted, initializing the state again and
    running to exhaustion gives the whole sequence 0, 2, ..., 18 once more.
    The counter needs no reset by the caller. *)
Theorem init_restarts_sequence n fuel s m obs s1 m1 :
  attached s m ->
  calls n s m = Some (obs, s1, m1) ->
  (11 <= fuel)%nat ->
  run_to_exhaustion 10 fuel (COROUTINE_INIT s1) m1
    = Some [0; 2; 4; 6; 8; 10; 12; 14; 16; 18].
Proof.
  intros Ha Hcalls Hfuel.
  destruct (calls_total n s m Ha) as (obs' & s' & m' & Hcalls' & Ha').
  rewrite Hcalls in Hcalls'. inversion Hcalls'; subst.
  rewrite run_fresh; [| reflexivity | exact Ha'].
  replace fuel with (11 + (fuel - 11))%nat by lia.
  apply plain_loop_from_more_fuel. reflexivity.
Qed.

Lemma init_restarts_sequence_witness :
  attached sample_suspended sample_memory
  /\ calls 1 sample_suspended sample_memory
     = Some ([(Returned 8, YIELD_LINE)], sample_suspended, <[4104 := 4]> sample_memory)
  /\ (11 <= 11)%nat
  /\ run_to_exhaustion 10 11 (COROUTINE_INIT sample_suspended)
       (<[4104 := 4]> sample_memory)
     = Some [0; 2; 4; 6; 8; 10; 12; 14; 16; 18].
Proof.
  assert (Ha : attached sample_suspended sample_memory) by (exists 3; reflexivity).
  assert (Hcalls : calls 1 sample_suspended sample_memory
     = Some ([(Returned 8, YIELD_LINE)], sample_suspended, <[4104 := 4]> sample_memory)).
  { vm_compute. reflexivity. }
  split; [exact Ha|]. split; [exact Hcalls|]. split; [lia|].
  exact (init_restarts_sequence 1 11 _ _ _ _ _ Ha Hcalls (le_n 11)).
Defined.

(** ** A counter the caller has written *)

Lemma run_from_counter_aux (d : nat) : forall fuel c s m,
  resume_point s = YIELD_LINE ->
  m !! data s = Some c ->
  c = 9 - Z.of_nat d ->
  - 2 ^ 30 - 1 <= c ->
  (d < fuel)%nat ->
  run_to_exhaustion 10 fuel s m = Some (doubled_from (c + 1) d).
Proof.
  induction d as [|d IH]; intros fuel c s m Hrp Hc Hcd Hlow Hfuel;
    (destruct fuel as [|fuel]; [lia|]); simpl run_to_exhaustion;
    rewrite (body_resume 10 s m c Hrp Hc); cbv zeta;
    rewrite (wrap_int32_small (c + 1)) by (unfold in_int32; lia).
  - destruct (Z.ltb_spec (c + 1) 10); [lia|]. reflexivity.
  - destruct (Z.ltb_spec (c + 1) 10); [|lia]. simpl.
    rewrite (IH fuel (c + 1)); [| reflexivity | apply mem_lookup_insert | lia ..].
    simpl. rewrite wrap_int32_small by (unfold in_int32; lia).
    replace ((c + 1) * 2) with (2 * (c + 1)) by lia. reflexivity.
Qed.

(** X7. The progress of the generator is the caller's counter and nothing
    else: resumed at the yield site with the counter holding any [c] for
    which neither [++] nor [* 2] overflows, the run to exhaustion yields
    [2 * (c + 1)], [2 * (c + 2)], ..., 18, and nothing when [c >= 9].  A
    caller that writes the counter between calls thus replays, skips or
    ends the sequence. *)
Theorem run_from_counter fuel c s m :
  resume_point s = YIELD_LINE ->
  m !! data s = Some c ->
  - 2 ^ 30 - 1 <= c < 2 ^ 31 - 1 ->
  (Z.to_nat (9 - c) < fuel)%nat ->
  run_to_exhaustion 10 fuel s m
    = Some (doubled_from (c + 1) (Z.to_nat (9 - c))).
Proof.
  intros Hrp Hc Hrange Hfuel. destruct (Z.le_gt_cases c 9) as [Hle|Hgt].
  - apply run_from_counter_aux; (assumption || lia).
  - replace (Z.to_nat (9 - c)) with 0%nat by lia.
    destruct fuel as [|fuel]; [lia|]. simpl.
    rewrite (body_resume 10 s m c Hrp Hc). cbv zeta.
    rewrite (wrap_int32_small (c + 1)) by (unfold in_int32; lia).
    destruct (Z.ltb_spec (c + 1) 10); [lia|]. reflexivity.
Qed.

Lemma run_from_counter_witness :
  resume_point sample_suspended = YIELD_LINE
  /\ sample_memory !! data sample_suspended = Some 3
  /\ - 2 ^ 30 - 1 <= 3 < 2 ^ 31 - 1
  /\ (Z.to_nat (9 - 3) < 7)%nat
  /\ run_to_exhaustion 10 7 sample_suspended sample_memory
     = Some [8; 10; 12; 14; 16; 18].
Proof.
  split; [reflexivity|]. split; [reflexivity|]. split; [lia|].
  split; [vm_compute; lia|].
  apply (run_from_counter 7 3 sample_suspended sample_memory);
    [reflexivity | reflexivity | lia | vm_compute; lia].
Defined.

(** ** The loop of the driver, from any state *)

(** X9. From any state and memory, the loop of [main] writes exactly the
    values a caller following the protocol collects, one line each and in
    order, after what standard output already holds; it fails or runs out
    of fuel exactly when the protocol does.  The indeterminate value read
    after a call without [return] is never written. *)
Theorem main_loop_prints_run fuel : forall indeterminate s m stdout,
  main_loop fuel indeterminate s m stdout
    = vs ← run_to_exhaustion 10 fuel s m;
      Some (stdout +:+ output_lines vs)%string.
Proof.
  induction fuel as [|fuel IH]; intros indeterminate s m stdout; [reflexivity|].
  simpl. unfold coroutine_example.
  destruct (coroutine_body 10 s m) as [[[r s'] m']|] eqn:Hcall; [|reflexivity].
  simpl. unfold COROUTINE_SEQUENCE_COMPLETE.
  apply body_inv in Hcall as (_ & _ & [(c & -> & Hrp & _)|(-> & Hrp & _)]);
    rewrite Hrp; simpl.
  - rewrite IH.
    destruct (run_to_exhaustion 10 fuel s' m') as [vs|]; [|reflexivity].
    simpl. rewrite append_assoc. reflexivity.
  - rewrite append_empty_r. reflexivity.
Qed.

(** * The struct in memory *)

(** ** Cells *)

Lemma load_int_Some (m : gmap Z cell) p v :
  load_int m p = Some v <-> m !! p = Some (IntCell v).
Proof.
  unfold load_int. destruct (m !! p) as [[w|q]|]; split; intros H;
    try discriminate; inversion H; reflexivity.
Qed.

Lemma load_ptr_Some (m : gmap Z cell) p d :
  load_ptr m p = Some d <-> m !! p = Some (PtrCell d).
Proof.
  unfold load_ptr. destruct (m !! p) as [[w|q]|]; split; intros H;
    try discriminate; inversion H; reflexivity.
Qed.

Lemma store_int_Some (m m1 : gmap Z cell) p v :
  store_int m p v = Some m1 <->
  (exists w, m !! p = Some (IntCell w)) /\ m1 = <[p := IntCell v]> m.
Proof.
  unfold store_int. split.
  - destruct (m !! p) as [[w|q]|]; intros H; try discriminate.
    inversion H. eauto.
  - intros [[w Hw] ->]. rewrite Hw. reflexivity.
Qed.

Lemma cells_lookup_insert (m : gmap Z cell) p c : <[p := c]> m !! p = Some c.
Proof. apply lookup_insert_eq. Qed.

Lemma cells_lookup_insert_ne (m : gmap Z cell) p q c :
  p <> q -> <[p := c]> m !! q = m !! q.
Proof. apply lookup_insert_ne. Qed.

Lemma field_addresses_differ state : resume_point_field state <> data_field state.
Proof. unfold resume_point_field, data_field. lia. Qed.

(** A cell that holds an [int] is not the cell of a [data] field. *)
Lemma int_cell_not_data (m : gmap Z cell) state d q v :
  m !! data_field state = Some (PtrCell d) ->
  m !! q = Some (IntCell v) ->
  q <> data_field state.
Proof. intros Hd Hq ->. rewrite Hd in Hq. discriminate. Qed.

(** ** The equations of a call through a pointer *)

Section BodyInMemoryFacts.

Variable bound : Z.

Lemma COROUTINE_END_at_eq state (m : gmap Z cell) rp :
  m !! resume_point_field state = Some (IntCell rp) ->
  COROUTINE_END_at state m
    = Some (FellOffEnd, <[resume_point_field state := IntCell END_OF_SEQUENCE]> m).
Proof.
  intros Hrp. unfold COROUTINE_END_at, store_int. rewrite Hrp. reflexivity.
Qed.

(** The loop condition once the counter has been written: [m] is the
    memory before that write, [c] the value written. *)
Lemma loop_test_at_eq state (m : gmap Z cell) rp d c0 c :
  m !! resume_point_field state = Some (IntCell rp) ->
  m !! data_field state = Some (PtrCell d) ->
  m !! d = Some (IntCell c0) ->
  loop_test_at bound state (<[d := IntCell c]> m) =
    if c <? bound
    then Some (Returned (wrap_int32
                 ((if decide (d = resume_point_field state) then YIELD_LINE else c) * 2)),
               write_back state (Some (d, c)) YIELD_LINE m)
    else Some (FellOffEnd, write_back state (Some (d, c)) END_OF_SEQUENCE m).
Proof.
  intros Hrp Hd Hc.
  assert (Hne : d <> data_field state) by (eapply int_cell_not_data; eassumption).
  assert (Hrp1 : exists w, <[d := IntCell c]> m !! resume_point_field state
                           = Some (IntCell w)).
  { destruct (decide (d = resume_point_field state)) as [->|Hdp].
    - rewrite cells_lookup_insert. eauto.
    - rewrite cells_lookup_insert_ne by assumption. eauto. }
  destruct Hrp1 as [w Hw].
  assert (Hd1 : load_ptr (<[d := IntCell c]> m) (data_field state) = Some d).
  { apply load_ptr_Some. rewrite cells_lookup_insert_ne by assumption. exact Hd. }
  assert (Hc1 : load_int (<[d := IntCell c]> m) d = Some c).
  { apply load_int_Some. apply cells_lookup_insert. }
  unfold loop_test_at, load_counter. rewrite Hd1. simpl. rewrite Hc1. simpl.
  destruct (c <? bound).
  - assert (Hs : store_int (<[d := IntCell c]> m) (resume_point_field state) YIELD_LINE
                 = Some (write_back state (Some (d, c)) YIELD_LINE m)).
    { apply store_int_Some. split; [eauto | reflexivity]. }
    rewrite Hs. simpl.
    assert (Hd2 : load_ptr (write_back state (Some (d, c)) YIELD_LINE m)
                    (data_field state) = Some d).
    { apply load_ptr_Some. unfold write_back.
      rewrite cells_lookup_insert_ne by apply field_addresses_differ.
      rewrite cells_lookup_insert_ne by assumption. exact Hd. }
    assert (Hz : load_int (write_back state (Some (d, c)) YIELD_LINE m) d
                 = Some (if decide (d = resume_point_field state)
                         then YIELD_LINE else c)).
    { apply load_int_Some. unfold write_back.
      destruct (decide (d = resume_point_field state)) as [->|Hdp].
      - apply cells_lookup_insert.
      - rewrite cells_lookup_insert_ne by congruence. apply cells_lookup_insert. }
    rewrite Hd2. simpl. rewrite Hz. reflexivity.
  - rewrite (COROUTINE_END_at_eq state _ w Hw). reflexivity.
Qed.

Lemma body_at_first_call state (m : gmap Z cell) d c0 :
  m !! resume_point_field state = Some (IntCell 0) ->
  m !! data_field state = Some (PtrCell d) ->
  m !! d = Some (IntCell c0) ->
  coroutine_body_at bound state m =
    if 0 <? bound
    then Some (Returned (wrap_int32
                 ((if decide (d = resume_point_field state) then YIELD_LINE else 0) * 2)),
               write_back state (Some (d, 0)) YIELD_LINE m)
    else Some (FellOffEnd, write_back state (Some (d, 0)) END_OF_SEQUENCE m).
Proof.
  intros Hrp Hd Hc. unfold coroutine_body_at, load_int. rewrite Hrp. simpl.
  unfold store_counter, load_ptr, store_int. rewrite Hd. simpl. rewrite Hc. simpl.
  apply (loop_test_at_eq state m 0 d c0 0); assumption.
Qed.

Lemma body_at_resume state (m : gmap Z cell) d c :
  m !! resume_point_field state = Some (IntCell YIELD_LINE) ->
  m !! data_field state = Some (PtrCell d) ->
  m !! d = Some (IntCell c) ->
  coroutine_body_at bound state m =
    let c' := wrap_int32 (c + 1) in
    if c' <? bound
    then Some (Returned (wrap_int32
                 ((if decide (d = resume_point_field state) then YIELD_LINE else c') * 2)),
               write_back state (Some (d, c')) YIELD_LINE m)
    else Some (FellOffEnd, write_back state (Some (d, c')) END_OF_SEQUENCE m).
Proof.
  intros Hrp Hd Hc. unfold coroutine_body_at, load_int. rewrite Hrp. simpl.
  unfold load_counter, store_counter, load_ptr, load_int, store_int.
  rewrite Hd. simpl. rewrite Hc. simpl.
  apply (loop_test_at_eq state m YIELD_LINE d c (wrap_int32 (c + 1))); assumption.
Qed.

Lemma body_at_default state (m : gmap Z cell) rp :
  m !! resume_point_field state = Some (IntCell rp) ->
  rp <> 0 ->
  rp <> YIELD_LINE ->
  coroutine_body_at bound state m
    = Some (FellOffEnd, write_back state None END_OF_SEQUENCE m).
Proof.
  intros Hrp H0 H1. unfold coroutine_body_at, load_int. rewrite Hrp. simpl.
  destruct (Z.eqb_spec rp 0); [contradiction|].
  destruct (Z.eqb_spec rp YIELD_LINE); [contradiction|].
  apply (COROUTINE_END_at_eq state m rp Hrp).
Qed.

End BodyInMemoryFacts.

(** ** What a call reads and writes *)

Lemma write_back_other state w marker (m : gmap Z cell) q :
  q <> resume_point_field state ->
  (forall d v, w = Some (d, v) -> q <> d) ->
  write_back state w marker m !! q = m !! q.
Proof.
  intros Hq Hw. unfold write_back.
  rewrite cells_lookup_insert_ne by congruence.
  destruct w as [[d v]|]; [|reflexivity].
  apply cells_lookup_insert_ne. intros E. exact (Hw d v eq_refl (eq_sym E)).
Qed.

(** A call that returns has read the cells it touches and nothing else,
    and has written the marker and, at most, the counter: on a memory that
    agrees with [m] on the touched cells the same call gives the same
    result and the same writes. *)
Lemma body_at_local bound state (m : gmap Z cell) r m' :
  coroutine_body_at bound state m = Some (r, m') ->
  exists w marker,
    m' = write_back state w marker m
    /\ (exists rp, m !! resume_point_field state = Some (IntCell rp))
    /\ (forall d v, w = Some (d, v) ->
          m !! data_field state = Some (PtrCell d)
          /\ exists c, m !! d = Some (IntCell c))
    /\ forall m2 : gmap Z cell,
         (forall q, touches state m q -> m2 !! q = m !! q) ->
         coroutine_body_at bound state m2 = Some (r, write_back state w marker m2).
Proof.
  intros H.
  destruct (m !! resume_point_field state) as [[rp|?]|] eqn:Hrp;
    [| unfold coroutine_body_at, load_int in H; rewrite Hrp in H; discriminate ..].
  assert (Hrp2 : forall m2 : gmap Z cell,
            (forall q, touches state m q -> m2 !! q = m !! q) ->
            m2 !! resume_point_field state = Some (IntCell rp)).
  { intros m2 Hm2. rewrite Hm2 by (left; reflexivity). exact Hrp. }
  destruct (decide (rp = 0 \/ rp = YIELD_LINE)) as [Hin|Hout].
  - destruct (m !! data_field state) as [[?|d]|] eqn:Hd;
      [ | | ];
      try (exfalso; unfold coroutine_body_at, load_int, load_counter, store_counter,
             load_ptr in H; rewrite Hrp in H; simpl in H;
           destruct Hin as [-> | ->]; simpl in H; rewrite Hd in H; discriminate).
    destruct (m !! d) as [[c|?]|] eqn:Hc;
      [ | | ];
      try (exfalso; unfold coroutine_body_at, load_int, load_counter, store_counter,
             load_ptr, store_int in H; rewrite Hrp in H; simpl in H;
           destruct Hin as [-> | ->]; simpl in H; rewrite Hd in H; simpl in H;
           unfold load_int in H; rewrite Hc in H; simpl in H; discriminate).
    assert (Hd2 : forall m2 : gmap Z cell,
              (forall q, touches state m q -> m2 !! q = m !! q) ->
              m2 !! data_field state = Some (PtrCell d)
              /\ m2 !! d = Some (IntCell c)).
    { intros m2 Hm2. split.
      - rewrite Hm2 by (right; left; reflexivity). exact Hd.
      - rewrite Hm2 by (right; right; exact Hd). exact Hc. }
    destruct Hin as [-> | ->].
    + rewrite (body_at_first_call bound state m d c Hrp Hd Hc) in H.
      destruct (0 <? bound) eqn:Hb; inversion H; subst; clear H;
        (eexists (Some (d, 0)), _; split; [reflexivity|]; split; [eauto|];
         split; [intros d' v' [= <- <-]; eauto|];
         intros m2 Hm2; destruct (Hd2 m2 Hm2) as [Hd' Hc'];
         rewrite (body_at_first_call bound state m2 d c (Hrp2 m2 Hm2) Hd' Hc');
         rewrite Hb; reflexivity).
    + rewrite (body_at_resume bound state m d c Hrp Hd Hc) in H. cbv zeta in H.
      destruct (wrap_int32 (c + 1) <? bound) eqn:Hb; inversion H; subst; clear H;
        (eexists (Some (d, wrap_int32 (c + 1))), _; split; [reflexivity|];
         split; [eauto|]; split; [intros d' v' [= <- <-]; eauto|];
         intros m2 Hm2; destruct (Hd2 m2 Hm2) as [Hd' Hc'];
         rewrite (body_at_resume bound state m2 d c (Hrp2 m2 Hm2) Hd' Hc');
         cbv zeta; rewrite Hb; reflexivity).
  - assert (H0 : rp <> 0) by tauto. assert (H1 : rp <> YIELD_LINE) by tauto.
    rewrite (body_at_default bound state m rp Hrp H0 H1) in H.
    inversion H; subst; clear H.
    exists None, END_OF_SEQUENCE. split; [reflexivity|]. split; [eauto|].
    split; [discriminate|].
    intros m2 Hm2. apply (body_at_default bound state m2 rp); auto.
Qed.


(** ** What a call may change *)

(** The model follows the code where the counter overlaps the struct: with
    [data] pointing at the struct's own [resume_point], the initializer
    clears the marker, the yield stores 107 into it, and the returned
    expression reads the marker back and doubles it. *)
Example counter_on_own_marker :
  fst <$> calls_at 3 100 sample_cells = Some [Returned 214; FellOffEnd; FellOffEnd].
Proof. vm_compute. reflexivity. Qed.

(** With [data] pointing at the [data] field itself, a call that enters
    the loop does not return: the counter access is an [int32_t] access to
    a cell that holds a pointer. *)
Lemma counter_on_own_data_field bound state (m : gmap Z cell) rp :
  m !! resume_point_field state = Some (IntCell rp) ->
  rp = 0 \/ rp = YIELD_LINE ->
  m !! data_field state = Some (PtrCell (data_field state)) ->
  coroutine_body_at bound state m = None.
Proof.
  intros Hrp Hin Hd.
  unfold coroutine_body_at, load_int at 1. rewrite Hrp. simpl.
  unfold load_counter, store_counter, load_ptr, load_int, store_int.
  destruct Hin as [-> | ->]; simpl; rewrite Hd; simpl; rewrite Hd; reflexivity.
Qed.






(** ** Generators side by side *)

(** Where one generator's [data] points at the [resume_point] of another,
    the order of the calls shows: called first, the generator at 400
    clears the marker of the one at 200, which then starts over with 0
    where it would have gone on with 8. *)
Example overlapping_generators_interfere :
  (fst <$> (coroutine_example_at 400 sample_cells
              ≫= fun '(_, m1) => coroutine_example_at 200 m1)) = Some (Returned 0)
  /\ fst <$> coroutine_example_at 200 sample_cells = Some (Returned 8).
Proof. split; vm_compute; reflexivity. Qed.

Lemma write_back_commute state1 state2 w1 w2 k1 k2 (m : gmap Z cell) :
  resume_point_field state1 <> resume_point_field state2 ->
  (forall d v, w1 = Some (d, v) -> d <> resume_point_field state2) ->
  (forall d v, w2 = Some (d, v) -> d <> resume_point_field state1) ->
  (forall d1 v1 d2 v2, w1 = Some (d1, v1) -> w2 = Some (d2, v2) -> d1 <> d2) ->
  write_back state1 w1 k1 (write_back state2 w2 k2 m)
    = write_back state2 w2 k2 (write_back state1 w1 k1 m).
Proof.
  intros Hpp H1 H2 H12. unfold write_back.
  destruct w1 as [[d1 v1]|], w2 as [[d2 v2]|].
  - specialize (H1 _ _ eq_refl). specialize (H2 _ _ eq_refl).
    specialize (H12 _ _ _ _ eq_refl eq_refl).
    rewrite (insert_insert_ne _ d1 (resume_point_field state2)) by assumption.
    rewrite (insert_insert_ne _ d1 d2) by assumption.
    rewrite (insert_insert_ne _ (resume_point_field state1) (resume_point_field state2))
      by assumption.
    rewrite (insert_insert_ne _ (resume_point_field state1) d2) by congruence.
    reflexivity.
  - specialize (H1 _ _ eq_refl).
    rewrite (insert_insert_ne _ d1 (resume_point_field state2)) by assumption.
    rewrite (insert_insert_ne _ (resume_point_field state1) (resume_point_field state2))
      by assumption.
    reflexivity.
  - specialize (H2 _ _ eq_refl).
    rewrite (insert_insert_ne _ (resume_point_field state1) (resume_point_field state2))
      by assumption.
    rewrite (insert_insert_ne _ (resume_point_field state1) d2) by congruence.
    reflexivity.
  - apply insert_insert_ne. assumption.
Qed.

(** X8. Two generators that are apart, no cell being a field of both
    structs, a field of one and the counter of the other, or the counter of
    both, do not disturb each other: a call on one followed by a call on
    the other gives each the result it gets when the two calls are made in
    the other order, and the memory at the end is the same. *)
Theorem apart_generators_commute state1 state2 m r1 m1 r2 m12 :
  apart state1 state2 m ->
  coroutine_example_at state1 m = Some (r1, m1) ->
  coroutine_example_at state2 m1 = Some (r2, m12) ->
  exists m2,
    coroutine_example_at state2 m = Some (r2, m2)
    /\ coroutine_example_at state1 m2 = Some (r1, m12).
Proof.
  intros Hapart Hc1 Hc2.
  destruct (body_at_local _ _ _ _ _ Hc1) as (w1 & k1 & -> & _ & Hw1 & Hl1).
  assert (Hkeep1 : forall q, touches state2 m q ->
            write_back state1 w1 k1 m !! q = m !! q).
  { intros q Hq. apply write_back_other.
    - intros ->. apply (Hapart (resume_point_field state1)); [left; reflexivity | exact Hq].
    - intros d v Hwe ->. destruct (Hw1 _ _ Hwe) as [Hd _].
      apply (Hapart d); [right; right; exact Hd | exact Hq]. }
  assert (Htouch : forall q, touches state2 (write_back state1 w1 k1 m) q ->
            touches state2 m q).
  { intros q [Hq|[Hq|Hq]]; [left; exact Hq | right; left; exact Hq |].
    right; right. rewrite <- Hq. symmetry. apply Hkeep1. right; left; reflexivity. }
  destruct (body_at_local _ _ _ _ _ Hc2) as (w2 & k2 & -> & _ & Hw2 & Hl2).
  assert (Hw2' : forall d v, w2 = Some (d, v) -> touches state2 m d).
  { intros d v Hwe. destruct (Hw2 _ _ Hwe) as [Hd _].
    apply Htouch. right; right. exact Hd. }
  assert (Hkeep2 : forall q, touches state1 m q ->
            write_back state2 w2 k2 m !! q = m !! q).
  { intros q Hq. apply write_back_other.
    - intros ->. apply (Hapart (resume_point_field state2)); [exact Hq | left; reflexivity].
    - intros d v Hwe ->. apply (Hapart d); [exact Hq | exact (Hw2' _ _ Hwe)]. }
  exists (write_back state2 w2 k2 m). split.
  - apply Hl2. intros q Hq. symmetry. apply Hkeep1. apply Htouch. exact Hq.
  - rewrite <- write_back_commute.
    + apply Hl1. exact Hkeep2.
    + intros E. apply (Hapart (resume_point_field state1));
        [left; reflexivity | left; exact E].
    + intros d v Hwe ->. destruct (Hw1 _ _ Hwe) as [Hd _].
      apply (Hapart (resume_point_field state2));
        [right; right; exact Hd | left; reflexivity].
    + intros d v Hwe ->.
      apply (Hapart (resume_point_field state1));
        [left; reflexivity | exact (Hw2' _ _ Hwe)].
    + intros d1 v1 d2 v2 Hwe1 Hwe2 ->. destruct (Hw1 _ _ Hwe1) as [Hd _].
      apply (Hapart d2); [right; right; exact Hd | exact (Hw2' _ _ Hwe2)].
Qed.

Lemma apart_generators_commute_witness :
  apart 500 200 sample_cells
  /\ coroutine_example_at 500 sample_cells
     = Some (Returned 0, <[500 := IntCell 107]> (<[600 := IntCell 0]> sample_cells))
  /\ coroutine_example_at 200
       (<[500 := IntCell 107]> (<[600 := IntCell 0]> sample_cells))
     = Some (Returned 8,
             <[200 := IntCell 107]> (<[300 := IntCell 4]>
               (<[500 := IntCell 107]> (<[600 := IntCell 0]> sample_cells))))
  /\ exists m2,
       coroutine_example_at 200 sample_cells = Some (Returned 8, m2)
       /\ coroutine_example_at 500 m2
          = Some (Returned 0,
                  <[200 := IntCell 107]> (<[300 := IntCell 4]>
                    (<[500 := IntCell 107]> (<[600 := IntCell 0]> sample_cells)))).
Proof.
  assert (Hapart : apart 500 200 sample_cells).
  { intros q [H1|[H1|H1]] [H2|[H2|H2]]; vm_compute in H1, H2; congruence. }
  assert (Hc1 : coroutine_example_at 500 sample_cells
     = Some (Returned 0, <[500 := IntCell 107]> (<[600 := IntCell 0]> sample_cells))).
  { vm_compute. reflexivity. }
  assert (Hc2 : coroutine_example_at 200
       (<[500 := IntCell 107]> (<[600 := IntCell 0]> sample_cells))
     = Some (Returned 8,
             <[200 := IntCell 107]> (<[300 := IntCell 4]>
               (<[500 := IntCell 107]> (<[600 := IntCell 0]> sample_cells))))).
  { vm_compute. reflexivity. }
  split; [exact Hapart|]. split; [exact Hc1|]. split; [exact Hc2|].
  exact (apart_generators_commute _ _ _ _ _ _ _ Hapart Hc1 Hc2).
Defined.

(** ** The two views of the state agree *)

Section Placing.

Variable bound : Z.
Variable state : Z.
Variable s : CoroutineState_t.
Variable m : gmap Z Z.

(** The struct lies beside the counters, and [data] does not point at the
    struct's own marker. *)
Hypothesis Hfree_marker : m !! resume_point_field state = None.
Hypothesis Hfree_data : m !! data_field state = None.
Hypothesis Hno_overlap : data s <> resume_point_field state.

Lemma place_marker : place state s m !! resume_point_field state
  = Some (IntCell (resume_point s)).
Proof. unfold place. apply cells_lookup_insert. Qed.

Lemma place_data : place state s m !! data_field state = Some (PtrCell (data s)).
Proof.
  unfold place. rewrite cells_lookup_insert_ne by apply field_addresses_differ.
  apply cells_lookup_insert.
Qed.

Lemma place_counter v :
  m !! data s = Some v -> place state s m !! data s = Some (IntCell v).
Proof.
  intros Hv. unfold place.
  rewrite cells_lookup_insert_ne by congruence.
  rewrite cells_lookup_insert_ne by (intros E; rewrite <- E, Hfree_data in Hv; discriminate).
  rewrite lookup_fmap, Hv. reflexivity.
Qed.

Lemma place_no_counter :
  m !! data s = None ->
  forall v, place state s m !! data s <> Some (IntCell v).
Proof.
  intros Hv v. unfold place.
  rewrite cells_lookup_insert_ne by congruence.
  destruct (decide (data_field state = data s)) as [E|E].
  - rewrite <- E, cells_lookup_insert. discriminate.
  - rewrite cells_lookup_insert_ne by assumption.
    rewrite lookup_fmap, Hv. discriminate.
Qed.

Lemma place_write_back v k :
  is_Some (m !! data s) ->
  write_back state (Some (data s, v)) k (place state s m)
    = place state (set_resume_point s k) (<[data s := v]> m).
Proof.
  intros [c Hc]. unfold write_back, place. simpl.
  assert (Hne : data s <> data_field state)
    by (intros E; rewrite E, Hfree_data in Hc; discriminate).
  rewrite (insert_insert_ne _ (data s) (resume_point_field state)) by assumption.
  rewrite insert_insert_eq.
  rewrite (insert_insert_ne _ (data s) (data_field state)) by assumption.
  rewrite fmap_insert. reflexivity.
Qed.

Lemma place_write_marker k :
  write_back state None k (place state s m) = place state (set_resume_point s k) m.
Proof. unfold write_back, place. simpl. apply insert_insert_eq. Qed.

(** On a struct that lies beside its counter, a call through the pointer
    is the call on the struct taken by value: same result, and the memory
    it leaves is the placing of the state and counters the other leaves. *)
Lemma place_simulation :
  coroutine_body_at bound state (place state s m)
    = '(r, s', m') ← coroutine_body bound s m; Some (r, place state s' m').
Proof.
  destruct (Z.eq_dec (resume_point s) START_OF_SEQUENCE) as [H0|H0];
    [|destruct (Z.eq_dec (resume_point s) YIELD_LINE) as [H1|H1]].
  - destruct (m !! data s) as [v|] eqn:Hv.
    + rewrite (body_first_call bound s m H0) by (rewrite Hv; eauto).
      rewrite (body_at_first_call bound state _ (data s) v);
        [| rewrite place_marker, H0; reflexivity | apply place_data
         | apply place_counter; exact Hv].
      destruct (decide (data s = resume_point_field state)); [contradiction|].
      rewrite !place_write_back by (rewrite Hv; eauto).
      destruct (0 <? bound); reflexivity.
    + unfold coroutine_body, store. rewrite H0, Hv. simpl.
      unfold coroutine_body_at, load_int. rewrite place_marker, H0. simpl.
      unfold store_counter, load_ptr. rewrite place_data. simpl.
      unfold store_int.
      destruct (place state s m !! data s) as [[w|q]|] eqn:E; try reflexivity.
      exfalso. exact (place_no_counter Hv w E).
  - destruct (m !! data s) as [c|] eqn:Hc.
    + rewrite (body_resume bound s m c H1 Hc).
      rewrite (body_at_resume bound state _ (data s) c);
        [| rewrite place_marker, H1; reflexivity | apply place_data
         | apply place_counter; exact Hc].
      cbv zeta.
      destruct (decide (data s = resume_point_field state)); [contradiction|].
      rewrite !place_write_back by (rewrite Hc; eauto).
      destruct (wrap_int32 (c + 1) <? bound); reflexivity.
    + unfold coroutine_body, load. rewrite H1, Hc. simpl.
      unfold coroutine_body_at, load_int at 1. rewrite place_marker, H1. simpl.
      unfold load_counter, load_ptr. rewrite place_data. simpl.
      unfold load_int.
      destruct (place state s m !! data s) as [[w|q]|] eqn:E; try reflexivity.
      exfalso. exact (place_no_counter Hc w E).
  - rewrite (body_default bound s m H0 H1).
    rewrite (body_at_default bound state _ (resume_point s) place_marker H0 H1).
    rewrite place_write_marker. reflexivity.
Qed.

End Placing.

(** * When a call returns *)

(** A call on a fresh state whose [data] points to no allocated cell does
    not return: the loop initializer writes through the pointer. *)
Lemma unattached_call_faults :
  coroutine_example sample_unattached ∅ = None
  /\ ~ is_Some (coroutine_example sample_unattached ∅).
Proof.
  assert (H : coroutine_example sample_unattached ∅ = None)
    by (vm_compute; reflexivity).
  split; [exact H|]. rewrite H. intros [x Hx]. discriminate.
Qed.

(** C7, amended.  A call returns when the counter storage is attached,
    and also, whatever [data] points to, when the marker is neither 0 nor
    the yield line, END_OF_SEQUENCE included.  What it returns is fixed by
    the state it starts from.  While elements remain, that is at marker 0,
    or at the yield line with the incremented counter below 10, it returns
    one value through the [return] statement, 0 or twice the incremented
    counter, and leaves the marker at the yield line.  On the call on which
    the loop condition fails, and on every call from any other marker, it
    sets END_OF_SEQUENCE and runs through the closing brace without a
    value; from another marker it leaves the memory as it was. *)
Theorem call_returns_when_attached s m :
  attached s m
  \/ (resume_point s <> START_OF_SEQUENCE /\ resume_point s <> YIELD_LINE) ->
  exists r s' m',
    coroutine_example s m = Some (r, s', m')
    /\ (resume_point s = START_OF_SEQUENCE ->
          r = Returned 0 /\ resume_point s' = YIELD_LINE)
    /\ (resume_point s = YIELD_LINE -> forall c, m !! data s = Some c ->
          (wrap_int32 (c + 1) < 10 ->
             r = Returned (wrap_int32 (wrap_int32 (c + 1) * 2))
             /\ resume_point s' = YIELD_LINE)
          /\ (10 <= wrap_int32 (c + 1) ->
                r = FellOffEnd /\ resume_point s' = END_OF_SEQUENCE))
    /\ (resume_point s <> START_OF_SEQUENCE -> resume_point s <> YIELD_LINE ->
          r = FellOffEnd /\ resume_point s' = END_OF_SEQUENCE /\ m' = m).
Proof.
  intros Hpre.
  destruct (Z.eq_dec (resume_point s) START_OF_SEQUENCE) as [H0|H0];
    [|destruct (Z.eq_dec (resume_point s) YIELD_LINE) as [H1|H1]].
  - destruct Hpre as [Ha|[? _]]; [|contradiction].
    exists (Returned 0), (set_resume_point s YIELD_LINE), (<[data s := 0]> m).
    split; [apply example_first_call; assumption|].
    split; [auto|]. split; [|contradiction].
    intros H1. rewrite H0 in H1. discriminate.
  - destruct Hpre as [[c Hc]|[_ ?]]; [|contradiction].
    unfold coroutine_example. rewrite (body_resume 10 s m c H1 Hc). cbv zeta.
    destruct (Z.ltb_spec (wrap_int32 (c + 1)) 10) as [Hlt|Hge];
      eexists _, _, _; (split; [reflexivity|]);
      (split; [contradiction|]); (split; [|contradiction]);
      intros _ c' Hc'; rewrite Hc in Hc'; inversion Hc'; subst c';
      split; intros ?; try lia; auto.
  - exists FellOffEnd, (set_resume_point s END_OF_SEQUENCE), m.
    split; [apply body_default; assumption|].
    split; [contradiction|]. split; [contradiction|]. auto.
Qed.

Lemma call_returns_when_attached_witness :
  (attached sample_suspended sample_memory
   \/ (resume_point sample_suspended <> START_OF_SEQUENCE
       /\ resume_point sample_suspended <> YIELD_LINE))
  /\ exists r s' m',
       coroutine_example sample_suspended sample_memory = Some (r, s', m')
       /\ (resume_point sample_suspended = YIELD_LINE ->
           forall c, sample_memory !! data sample_suspended = Some c ->
             (wrap_int32 (c + 1) < 10 ->
                r = Returned (wrap_int32 (wrap_int32 (c + 1) * 2))
                /\ resume_point s' = YIELD_LINE)
             /\ (10 <= wrap_int32 (c + 1) ->
                   r = FellOffEnd /\ resume_point s' = END_OF_SEQUENCE)).
Proof.
  assert (Hpre : attached sample_suspended sample_memory
            \/ (resume_point sample_suspended <> START_OF_SEQUENCE
                /\ resume_point sample_suspended <> YIELD_LINE))
    by (left; exists 3; reflexivity).
  split; [exact Hpre|].
  destruct (call_returns_when_attached sample_suspended sample_memory Hpre)
    as (r & s' & m' & Hcall & _ & Hyield & _).
  exists r, s', m'. split; [exact Hcall | exact Hyield].
Defined.
